(** * GPUMD neighbor-list lifecycle (src/neighbor.cu)

    A shallow embedding of the host driver [find_neighbor] and of the CUDA
    kernels it launches: the two-stage displacement reduction, the periodic
    wrap, the reference-position snapshot, the capacity check and the choice
    between the O(N^2) and the O(N) list builders.

    Conventions of the embedding.
    - [int] is a 32-bit two's-complement integer, carried as a [Z] and
      normalised by [Int.repr] after every arithmetic operation.
    - [real] is the macro type of the source ([float], or [double] under
      USE_DP).  The code is embedded once, over an interface [RealOps] that
      supplies exactly the operations the source applies to a [real]; an
      exact instance over [Q] is used where a property needs the ordered
      field laws, and every property that needs no law is proved for an
      arbitrary instance.
    - Device arrays are lists; [arr.[n]] reads and [arr.[n <- v]] writes.
    - A kernel launch <<<grid, block>>> runs the kernel body once per
      (blockIdx, threadIdx) pair.  Kernels without shared memory write only
      the slot of their own thread index, and are run thread after thread.
      Kernels with shared memory are run phase by phase: between two
      barriers every thread reads the shared array as the previous phase
      left it ([barrier_phase_any_order] shows that the order of the
      threads inside such a phase does not matter for the strides the
      kernels use), and the lanes of one warp execute each statement of
      [warp_reduce] in lock step, loads before stores.
    - A host function is a state transformer on the process ([World])
      that returns or exits; the log of entered callees is ghost state.
    - The allocation and error macros (MY_MALLOC, MY_FREE, CHECK, from
      memory.cuh and error.cuh) and the CUDA runtime calls are not part of
      this file.  They are taken to succeed, as they do for a number of
      particles [0 <= N]; the host functions are embedded for such [N].
    - The conversion of a floating value to [int] is the identity on a
      value that fits; C leaves every other conversion undefined, and the
      model stores what the conversion instruction of the x86 host stores,
      INT_MIN ([to_int]). *)

From Stdlib Require Import ZArith QArith Qround Lia Lqa String Ascii DecimalString.
From Stdlib Require Import Floats.
From stdpp Require Import base list numbers.

Open Scope Z_scope.

(** ** 32-bit signed integers *)

Module Int.
Definition min_signed : Z := - 2 ^ 31.
Definition max_signed : Z := 2 ^ 31 - 1.
Definition modulus : Z := 2 ^ 32.

(** The value an [int] variable holds after it is assigned [z]. *)
Definition repr (z : Z) : Z := (z + 2 ^ 31) mod modulus - 2 ^ 31.

Definition in_range (z : Z) : Prop := min_signed <= z <= max_signed.

Definition add (a b : Z) : Z := repr (a + b).
Definition sub (a b : Z) : Z := repr (a - b).
Definition mul (a b : Z) : Z := repr (a * b).
(** C division truncates toward zero. *)
Definition div (a b : Z) : Z := repr (Z.quot a b).
End Int.

(** ** The [real] type of the source *)

Class RealOps (real : Type) : Type := {
  r_zero  : real;                      (* the literal 0 converted to real *)
  r_half  : real;                      (* HALF *)
  r_add   : real -> real -> real;
  r_sub   : real -> real -> real;
  r_mul   : real -> real -> real;
  r_div   : real -> real -> real;
  r_ltb   : real -> real -> bool;      (* a < b; the source's a > b is b < a *)
  r_floor : real -> option Z           (* the integer floor(v) denotes;
                                          none for a NaN or an infinity *)
}.

Definition r_gtb `{RealOps real} (a b : real) : bool := r_ltb b a.

#[export] Instance real_inhabited `{RealOps real} : Inhabited real :=
  populate r_zero.

(** Exact rational arithmetic.  ([Qdiv] by 0 is 0, where a floating
    division gives an infinity or a NaN; either way the cell count of the
    axis is below 3.) *)
Definition Qltb (a b : Q) : bool := negb (Qle_bool b a).

#[export] Instance Q_real : RealOps Q := {|
  r_zero := 0%Q;
  r_half := (1 # 2)%Q;
  r_add := Qplus;
  r_sub := Qminus;
  r_mul := Qmult;
  r_div := Qdiv;
  r_ltb := Qltb;
  r_floor := fun v => Some (Qfloor v)
|}.

(** Binary64 arithmetic, the [real] of a USE_DP build.  [f64_floor] is the
    integer below a finite value; the floor of a NaN or of an infinity is
    that NaN or infinity, and denotes no integer. *)
Definition f64_floor (v : float) : option Z :=
  match Prim2SF v with
  | S754_finite s m e =>
      let n := if s then Z.neg m else Z.pos m in
      Some (if 0 <=? e then n * 2 ^ e else n / 2 ^ (- e))
  | S754_zero _ => Some 0
  | S754_infinity _ | S754_nan => None
  end.

#[export] Instance f64_real : RealOps float := {|
  r_zero := 0%float;
  r_half := 0.5%float;
  r_add := PrimFloat.add;
  r_sub := PrimFloat.sub;
  r_mul := PrimFloat.mul;
  r_div := PrimFloat.div;
  r_ltb := PrimFloat.ltb;
  r_floor := f64_floor
|}.

(** ** Device arrays *)

Definition rd {A} `{Inhabited A} (arr : list A) (n : Z) : A :=
  arr !!! Z.to_nat n.

Definition wr {A} (arr : list A) (n : Z) (v : A) : list A :=
  if 0 <=? n then <[Z.to_nat n := v]> arr else arr.

Notation "arr .[ n ]" := (rd arr n) (at level 1, n at level 99, format "arr .[ n ]").
Notation "arr .[ n <- v ]" := (wr arr n v)
  (at level 1, n at level 99, v at level 99, format "arr .[ n  <-  v ]").

(** <<<grid, block>>> for a kernel without shared memory. *)
Definition launch {S} (grid block : Z) (kernel : Z -> Z -> Z -> S -> S) (s : S) : S :=
  foldl (fun s blockIdx =>
           foldl (fun s threadIdx => kernel blockIdx block threadIdx s)
                 s (seqZ 0 block))
        s (seqZ 0 grid).

(** One lock-step statement [if (tid < active) s[tid] += s[tid + stride]]
    over the whole shared array. *)
Definition simt_add (active stride : nat) (s : list Z) : list Z :=
  imap (fun tid v =>
          if bool_decide (tid < active)%nat
          then Int.add v (s !!! (tid + stride)%nat)
          else v) s.

(** The same statement as one thread executes it on its own, and a phase
    between two barriers in which the threads run in some [order]. *)
Definition thread_add (active stride : nat) (s : list Z) (tid : nat) : list Z :=
  if bool_decide (tid < active)%nat
  then <[tid := Int.add (s !!! tid) (s !!! (tid + stride)%nat)]> s
  else s.

Definition barrier_phase (active stride : nat) (order : list nat) (s : list Z) : list Z :=
  foldl (thread_add active stride) s order.

(** A thread's statement [if (c n) arr[n] = g n arr[n]], the shape of every
    write the kernels without shared memory make. *)
Definition array_step {A} `{Inhabited A} (c : Z -> bool) (g : Z -> A -> A)
    (arr : list A) (i : Z) : list A :=
  let n := Int.repr i in
  if c n then arr.[n <- g n arr.[n]] else arr.

(** The array after every index where [c] holds received [g]. *)
Definition array_map {A} (c : Z -> bool) (g : Z -> A -> A) (arr : list A) : list A :=
  imap (fun j v => if c (Z.of_nat j) then g (Z.of_nat j) v else v) arr.

(** [f 0 + ... + f (k - 1)] *)
Fixpoint sumto (f : nat -> Z) (k : nat) : Z :=
  match k with
  | O => 0
  | S k' => sumto f k' + f k'
  end.

(** ** Constants *)

Definition BLOCK_SIZE : Z := 128.
Definition NUM_OF_CELLS : Z := 50.

(** ** Data model

    [Parameters] and [Atom] are declared in parameters.cuh and atom.cuh; the
    records hold the fields neighbor.cu reads or writes. *)

Record Neighbor (real : Type) : Type := {
  MN : Z;
  rc : real
}.
Arguments MN {real}. Arguments rc {real}.

Record Parameters (real : Type) : Type := {
  N : Z;
  pbc_x : Z;
  pbc_y : Z;
  pbc_z : Z;
  neighbor : Neighbor real
}.
Arguments N {real}. Arguments pbc_x {real}. Arguments pbc_y {real}.
Arguments pbc_z {real}. Arguments neighbor {real}.

(** What a list builder produces: the neighbor counts and the table of
    neighbor indices. *)
Record NeighborList : Type := {
  nl_NN : list Z;
  nl_NL : list Z
}.

Record Atom (real : Type) : Type := {
  NN : list Z;
  NL : list Z;
  x : list real;
  y : list real;
  z : list real;
  x0 : list real;
  y0 : list real;
  z0 : list real;
  box_length : list real
}.
Arguments NN {real}. Arguments NL {real}.
Arguments x {real}. Arguments y {real}. Arguments z {real}.
Arguments x0 {real}. Arguments y0 {real}. Arguments z0 {real}.
Arguments box_length {real}.

(** The callees of the driver, in the order they were entered. *)
Inductive Call : Type :=
| CallON2
| CallON1 (cell_n_x cell_n_y cell_n_z : Z)
| CallCheckBound
| CallCheckDistance
| CallApplyPbc
| CallUpdateXyz0.

#[export] Instance Call_eq_dec : EqDecision Call.
Proof. solve_decision. Defined.

Definition is_builder (c : Call) : bool :=
  match c with
  | CallON2 | CallON1 _ _ _ => true
  | _ => false
  end.

(** The process: device state, what was printed, and the call log (the log
    is ghost state: no code reads it). *)
Record World (real : Type) : Type := {
  w_atom : Atom real;
  w_stdout : list string;
  w_calls : list Call
}.
Arguments w_atom {real}. Arguments w_stdout {real}. Arguments w_calls {real}.

(** A host function either returns or ends the process through [exit]. *)
Inductive Outcome (real A : Type) : Type :=
| Returned (a : A) (w : World real)
| Exited (status : Z) (w : World real).
Arguments Returned {real A}. Arguments Exited {real A}.

Definition Host (real A : Type) : Type := World real -> Outcome real A.

Definition ret {real A} (a : A) : Host real A := fun w => Returned a w.

Definition bind {real A B} (m : Host real A) (k : A -> Host real B) : Host real B :=
  fun w => match m w with
           | Returned a w' => k a w'
           | Exited st w' => Exited st w'
           end.

Definition exit {real A} (status : Z) : Host real A := fun w => Exited status w.

Definition get_atom {real} : Host real (Atom real) := fun w => Returned (w_atom w) w.

Definition modify_atom {real} (f : Atom real -> Atom real) : Host real unit :=
  fun w => Returned tt
    {| w_atom := f (w_atom w); w_stdout := w_stdout w; w_calls := w_calls w |}.

Definition printf {real} (line : string) : Host real unit :=
  fun w => Returned tt
    {| w_atom := w_atom w; w_stdout := w_stdout w ++ [line]; w_calls := w_calls w |}.

Definition enter {real} (c : Call) : Host real unit :=
  fun w => Returned tt
    {| w_atom := w_atom w; w_stdout := w_stdout w; w_calls := w_calls w ++ [c] |}.

Declare Scope host_scope.
Delimit Scope host_scope with host.
Notation "v <- m ;; k" := (bind m (fun v => k))
  (at level 100, m at next level, right associativity) : host_scope.
Notation "m ;;; k" := (bind m (fun _ => k))
  (at level 100, right associativity) : host_scope.

(** printf's %d *)
Definition fmt_d (v : Z) : string := NilZero.string_of_int (Z.to_int v).

Definition newline : string := String (ascii_of_nat 10) EmptyString.

(** The process as a host function leaves it, returned or exited. *)
Definition outcome_world {real A} (o : Outcome real A) : World real :=
  match o with
  | Returned _ w => w
  | Exited _ w => w
  end.

(** The (blockIdx, threadIdx) pairs of a launch <<<grid, block>>>, and a
    launch whose threads run one after the other in the order [schedule]. *)
Definition grid_threads (grid block : Z) : list (Z * Z) :=
  b ← seqZ 0 grid; (fun t => (b, t)) <$> seqZ 0 block.

Definition launch_scheduled {S} (schedule : list (Z * Z)) (block : Z)
    (kernel : Z -> Z -> Z -> S -> S) (s : S) : S :=
  foldl (fun s bt => kernel bt.1 block bt.2 s) s schedule.

(** ** Sample configurations

    Three particles in a 4 x 4 x 4 box, periodic along x and y; the
    properties below are instantiated on them. *)

Definition sample_para : Parameters Q :=
  {| N := 3; pbc_x := 1; pbc_y := 1; pbc_z := 0;
     neighbor := {| MN := 2; rc := 1%Q |} |}.

(** Particle 2 left the box along x and y and moved by more than 1/2. *)
Definition sample_atom : Atom Q :=
  {| NN := [2; 1; 0]; NL := [];
     x := [0; 1; 5]%Q; y := [0; 4; -1]%Q; z := [0; 0; 9]%Q;
     x0 := [0; 1 # 2; 4]%Q; y0 := [0; 4; 0]%Q; z0 := [0; 0; 9]%Q;
     box_length := [4; 4; 4]%Q |}.

(** No particle moved since the snapshot. *)
Definition still_atom : Atom Q :=
  {| NN := [2; 2; 2]; NL := [1; 2; 0; 2; 0; 1];
     x := [0; 1; 3]%Q; y := [0; 4; 3]%Q; z := [0; 0; 9]%Q;
     x0 := [0; 1; 3]%Q; y0 := [0; 4; 3]%Q; z0 := [0; 0; 9]%Q;
     box_length := [4; 4; 4]%Q |}.

(** The state a steady-state rebuild of [sample_atom] ends in. *)
Definition rebuilt_atom : Atom Q :=
  {| NN := [2; 2; 2]; NL := [1; 2; 0; 2; 0; 1];
     x := [0; 1; 1]%Q; y := [0; 4; 3]%Q; z := [0; 0; 9]%Q;
     x0 := [0; 1; 1]%Q; y0 := [0; 4; 3]%Q; z0 := [0; 0; 9]%Q;
     box_length := [4; 4; 4]%Q |}.

(** The state a bootstrap call on [sample_atom] ends in. *)
Definition bootstrapped_atom : Atom Q :=
  {| NN := [2; 2; 2]; NL := [1; 2; 0; 2; 0; 1];
     x := [0; 1; 5]%Q; y := [0; 4; -1]%Q; z := [0; 0; 9]%Q;
     x0 := [0; 1; 5]%Q; y0 := [0; 4; -1]%Q; z0 := [0; 0; 9]%Q;
     box_length := [4; 4; 4]%Q |}.

Definition sample_world : World Q :=
  {| w_atom := sample_atom; w_stdout := []; w_calls := [] |}.

Definition still_world : World Q :=
  {| w_atom := still_atom; w_stdout := []; w_calls := [] |}.

(** Stand-ins for the two builders: every particle neighbors the two
    others. *)
Definition sample_ON2 (para : Parameters Q) (a : Atom Q) : NeighborList :=
  {| nl_NN := [2; 2; 2]; nl_NL := [1; 2; 0; 2; 0; 1] |}.

Definition sample_ON1 (para : Parameters Q) (a : Atom Q) (cx cy cz : Z) : NeighborList :=
  {| nl_NN := [2; 2; 2]; nl_NL := [1; 2; 0; 2; 0; 1] |}.

(** The same run with room for one neighbor only. *)
Definition tight_para : Parameters Q :=
  {| N := 3; pbc_x := 1; pbc_y := 1; pbc_z := 0;
     neighbor := {| MN := 1; rc := 1%Q |} |}.

(** A fully periodic box: 4 x 4 x 4 cells, and 2048 x 2048 x 2048 cells. *)
Definition cubic_para : Parameters Q :=
  {| N := 3; pbc_x := 1; pbc_y := 1; pbc_z := 1;
     neighbor := {| MN := 2; rc := 1%Q |} |}.

Definition small_box : list Q := [4; 4; 4]%Q.
Definition huge_box : list Q := [2048; 2048; 2048]%Q.

(** A box whose x edge holds 2^32 + 5 cells, more than an [int] can count. *)
Definition wide_box : list Q := [4294967301; 4; 4]%Q.

(** One particle two box lengths below the box along x. *)
Definition far_para : Parameters Q :=
  {| N := 1; pbc_x := 1; pbc_y := 1; pbc_z := 1;
     neighbor := {| MN := 2; rc := 1%Q |} |}.

Definition far_atom : Atom Q :=
  {| NN := [0]; NL := [];
     x := [-2]%Q; y := [0]%Q; z := [0]%Q;
     x0 := [-2]%Q; y0 := [0]%Q; z0 := [0]%Q;
     box_length := [1; 1; 1]%Q |}.

(** The same particle in binary64. *)
Definition far_para_f64 : Parameters float :=
  {| N := 1; pbc_x := 1; pbc_y := 1; pbc_z := 1;
     neighbor := {| MN := 2; rc := 1%float |} |}.

Definition far_atom_f64 : Atom float :=
  {| NN := [0]; NL := [];
     x := [-2]%float; y := [0]%float; z := [0]%float;
     x0 := [-2]%float; y0 := [0]%float; z0 := [0]%float;
     box_length := [1; 1; 1]%float |}.

(** The same atoms when only the first two particles count. *)
Definition partial_para : Parameters Q :=
  {| N := 2; pbc_x := 1; pbc_y := 1; pbc_z := 0;
     neighbor := {| MN := 2; rc := 1%Q |} |}.

(** A system without particles. *)
Definition empty_para : Parameters Q :=
  {| N := 0; pbc_x := 1; pbc_y := 1; pbc_z := 1;
     neighbor := {| MN := 2; rc := 1%Q |} |}.

Definition empty_world : World Q :=
  {| w_atom := {| NN := []; NL := []; x := []; y := []; z := [];
                  x0 := []; y0 := []; z0 := []; box_length := [4; 4; 4]%Q |};
     w_stdout := []; w_calls := [] |}.

(** The processes the sample calls of the driver end with. *)
Definition bootstrapped_world : World Q :=
  {| w_atom := bootstrapped_atom; w_stdout := [];
     w_calls := [CallON2; CallCheckBound; CallUpdateXyz0] |}.

Definition rebuilt_world : World Q :=
  {| w_atom := rebuilt_atom; w_stdout := [];
     w_calls := [CallCheckDistance; CallON2; CallCheckBound;
                 CallApplyPbc; CallUpdateXyz0] |}.

Definition overflowed_world : World Q :=
  {| w_atom :=
       {| NN := [2; 2; 2]; NL := [1; 2; 0; 2; 0; 1];
          x := [0; 1; 5]%Q; y := [0; 4; -1]%Q; z := [0; 0; 9]%Q;
          x0 := [0; 1 # 2; 4]%Q; y0 := [0; 4; 0]%Q; z0 := [0; 0; 9]%Q;
          box_length := [4; 4; 4]%Q |};
     w_stdout := [("Error: NN[0] = 2 > 1" ++ newline)%string;
                  ("Error: NN[1] = 2 > 1" ++ newline)%string;
                  ("Error: NN[2] = 2 > 1" ++ newline)%string];
     w_calls := [CallON2; CallCheckBound] |}.

(** Shared arrays with a 1 in every lane, and 1030 partial sums of 1. *)
Definition ones_64 : list Z := replicate 64 1.
Definition ones_1024 : list Z := replicate 1024 1.
Definition ones_1030 : list Z := replicate 1030 1.

Section NeighborCu.
Set Default Proof Using "Type".
Context {real : Type} `{RealOps real}.

(** Built with -DDEBUG or not. *)
Variable DEBUG : bool.

(** Modelled from the spec: the two builders, [find_neighbor_ON2] of
    neighbor_ON2.cu and [find_neighbor_ON1] of neighbor_ON1.cu, are not part
    of this file.  By their contract, build(N, ..., positions, box) ->
    NeighborList, they read the parameters and the atoms and produce the
    neighbor list; [find_neighbor] stores it into the atom. *)
Variable find_neighbor_ON2 : Parameters real -> Atom real -> NeighborList.
Variable find_neighbor_ON1 : Parameters real -> Atom real -> Z -> Z -> Z -> NeighborList.

Definition set_xyz (a : Atom real) (x' y' z' : list real) : Atom real :=
  {| NN := NN a; NL := NL a; x := x'; y := y'; z := z';
     x0 := x0 a; y0 := y0 a; z0 := z0 a; box_length := box_length a |}.

Definition set_xyz0 (a : Atom real) (x0' y0' z0' : list real) : Atom real :=
  {| NN := NN a; NL := NL a; x := x a; y := y a; z := z a;
     x0 := x0'; y0 := y0'; z0 := z0'; box_length := box_length a |}.

Definition set_list (a : Atom real) (l : NeighborList) : Atom real :=
  {| NN := nl_NN l; NL := nl_NL l; x := x a; y := y a; z := z a;
     x0 := x0 a; y0 := y0 a; z0 := z0 a; box_length := box_length a |}.

(** *** warp_reduce *)
Definition warp_reduce (s : list Z) : list Z :=
  let s := simt_add 32 32 s in
  let s := simt_add 32 16 s in
  let s := simt_add 32 8 s in
  let s := simt_add 32 4 s in
  let s := simt_add 32 2 s in
  simt_add 32 1 s.

(** The tree reduction both kernels end with; the result is [s_sum[0]]. *)
Definition block_reduce (s_sum : list Z) : Z :=
  let s := simt_add 512 512 s_sum in
  let s := simt_add 256 256 s in
  let s := simt_add 128 128 s in
  let s := simt_add 64 64 s in
  let s := warp_reduce s in
  s.[0].

(** *** check_atom_distance_1 *)

(** [dx * dx + dy * dy + dz * dz > d2] for particle [n]. *)
Definition moved (d2 : real) (x_old y_old z_old x_new y_new z_new : list real)
    (n : Z) : bool :=
  let dx := r_sub x_new.[n] x_old.[n] in
  let dy := r_sub y_new.[n] y_old.[n] in
  let dz := r_sub z_new.[n] z_old.[n] in
  r_gtb (r_add (r_add (r_mul dx dx) (r_mul dy dy)) (r_mul dz dz)) d2.

(** What thread [tid] of block [bid] leaves in [s_sum[tid]] before the
    first barrier. *)
Definition check_atom_distance_1_flag (N : Z) (d2 : real)
    (x_old y_old z_old x_new y_new z_new : list real)
    (bid blockDim tid : Z) : Z :=
  let n := Int.repr (bid * blockDim + tid) in
  if (n <? N) && moved d2 x_old y_old z_old x_new y_new z_new n then 1 else 0.

(** One block of the kernel: the value stored in [g_sum[bid]]. *)
Definition check_atom_distance_1 (N : Z) (d2 : real)
    (x_old y_old z_old x_new y_new z_new : list real)
    (bid blockDim : Z) : Z :=
  let s_sum :=
    check_atom_distance_1_flag N d2 x_old y_old z_old x_new y_new z_new bid blockDim
      <$> seqZ 0 blockDim in
  block_reduce s_sum.

(** *** check_atom_distance_2 *)

(** The patch loop of thread [tid]. *)
Definition check_atom_distance_2_acc (M : Z) (g_sum_i : list Z) (tid : Z) : Z :=
  let number_of_patches := Int.add (Int.div (Int.sub M 1) 1024) 1 in
  foldl (fun acc patch =>
           let n := Int.add tid (Int.mul patch 1024) in
           if n <? M then Int.add acc g_sum_i.[n] else acc)
        0 (seqZ 0 number_of_patches).

(** The single block of the kernel: the value stored in [g_sum_o[0]]. *)
Definition check_atom_distance_2 (M : Z) (g_sum_i : list Z) (blockDim : Z) : Z :=
  let s_sum := check_atom_distance_2_acc M g_sum_i <$> seqZ 0 blockDim in
  block_reduce s_sum.

(** *** check_atom_distance *)

(** The two launches and the copy of the result to the host, for a
    threshold [d2]. *)
Definition check_atom_distance_d2 (d2 : real) (N : Z) (atom : Atom real) : Z :=
  let M := Int.add (Int.div (Int.sub N 1) 1024) 1 in
  let s1 :=
    (fun bid => check_atom_distance_1 N d2 (x0 atom) (y0 atom) (z0 atom)
                  (x atom) (y atom) (z atom) bid 1024)
      <$> seqZ 0 M in
  let s2 := check_atom_distance_2 M s1 1024 in
  s2.

Definition check_atom_distance (para : Parameters real) : Host real Z :=
  (enter CallCheckDistance ;;;
   atom <- get_atom ;;
   let d2 := r_mul r_half r_half in
   let update := check_atom_distance_d2 d2 (N para) atom in
   ret update)%host.

(** *** gpu_apply_pbc *)

(** The statement [if (v < 0) v += l; else if (v > l) v -= l;]. *)
Definition pull_back (l v : real) : real :=
  if r_ltb v r_zero then r_add v l
  else if r_gtb v l then r_sub v l
  else v.

Definition gpu_apply_pbc (N pbc_x pbc_y pbc_z : Z)
    (blockIdx blockDim threadIdx : Z) (a : Atom real) : Atom real :=
  let n := Int.repr (blockIdx * blockDim + threadIdx) in
  let lx := (box_length a).[0] in
  let ly := (box_length a).[1] in
  let lz := (box_length a).[2] in
  if n <? N then
    let x' := if pbc_x =? 1 then (x a).[n <- pull_back lx (x a).[n]] else x a in
    let y' := if pbc_y =? 1 then (y a).[n <- pull_back ly (y a).[n]] else y a in
    let z' := if pbc_z =? 1 then (z a).[n <- pull_back lz (z a).[n]] else z a in
    set_xyz a x' y' z'
  else a.

(** *** gpu_update_xyz0 *)
Definition gpu_update_xyz0 (N : Z) (blockIdx blockDim threadIdx : Z) (a : Atom real) : Atom real :=
  let n := Int.repr (blockIdx * blockDim + threadIdx) in
  if n <? N then
    set_xyz0 a (x0 a).[n <- (x a).[n]] (y0 a).[n <- (y a).[n]] (z0 a).[n <- (z a).[n]]
  else a.

(** *** check_bound

    [cpu_NN] is the copy of the first [N] entries of [NN] on the host.
    The allocation of the copy and the copy itself (MY_MALLOC and CHECK,
    lines 226 and 227) are taken to succeed, which is what they do for
    [0 <= N]; a negative [N] is no number of particles, and the request of
    [sizeof(int) * N] bytes it would make is outside this embedding. *)
Definition check_bound_line (n count mn : Z) : string :=
  ("Error: NN[" ++ fmt_d n ++ "] = " ++ fmt_d count ++ " > " ++ fmt_d mn ++ newline)%string.

(** The loop body: [flag] is threaded through the iterations. *)
Definition check_bound_iter (para : Parameters real) (cpu_NN : list Z)
    (flag : Z) (n : Z) : Host real Z :=
  if cpu_NN.[n] >? MN (neighbor para) then
    (printf (check_bound_line n cpu_NN.[n] (MN (neighbor para))) ;;;
     ret 1)%host
  else ret flag.

Fixpoint check_bound_loop (para : Parameters real) (cpu_NN : list Z)
    (flag : Z) (ns : list Z) : Host real Z :=
  match ns with
  | [] => ret flag
  | n :: ns =>
      (flag <- check_bound_iter para cpu_NN flag n ;;
       check_bound_loop para cpu_NN flag ns)%host
  end.

Definition check_bound (para : Parameters real) : Host real unit :=
  (enter CallCheckBound ;;;
   atom <- get_atom ;;
   let N := N para in
   let cpu_NN := NN atom in
   flag <- check_bound_loop para cpu_NN 0 (seqZ 0 N) ;;
   if flag =? 1 then exit 1 else ret tt)%host.

(** *** find_neighbor (para, atom): the choice of a builder *)

Inductive Method : Type :=
| UseON2
| UseON1 (cell_n_x cell_n_y cell_n_z : Z).

(** The implicit conversion of the value of [floor] to the [int] [cell_n]
    (lines 278, 285, 292).  A value inside the range of [int] is kept.  C
    leaves the conversion of any other value undefined; the conversion
    instruction of the x86 host stores INT_MIN for all of them, a NaN and
    the infinities included, and it does not wrap around. *)
Definition to_int (v : option Z) : Z :=
  match v with
  | Some n =>
      if (Int.min_signed <=? n) && (n <=? Int.max_signed) then n
      else Int.min_signed
  | None => Int.min_signed
  end.

(** [cell_n = floor(cpu_box[d] / rc)], converted to [int]. *)
Definition cell_count (box_d rc : real) : Z :=
  to_int (r_floor (r_div box_d rc)).

(** One axis: the cell count and whether it forces the O(N^2) method. *)
Definition axis_cells (pbc : Z) (box_d rc : real) : Z * bool :=
  if pbc =? 0 then (1, false)
  else let cell_n := cell_count box_d rc in (cell_n, cell_n <? 3).

Definition choose_method (para : Parameters real) (cpu_box : list real) : Method :=
  if DEBUG then UseON2
  else
    let rc := rc (neighbor para) in
    let '(cell_n_x, ux) := axis_cells (pbc_x para) cpu_box.[0] rc in
    let '(cell_n_y, uy) := axis_cells (pbc_y para) cpu_box.[1] rc in
    let '(cell_n_z, uz) := axis_cells (pbc_z para) cpu_box.[2] rc in
    let use_ON2 := ux || uy || uz in
    let use_ON2 :=
      if Int.mul (Int.mul cell_n_x cell_n_y) cell_n_z <? NUM_OF_CELLS
      then true else use_ON2 in
    if use_ON2 then UseON2 else UseON1 cell_n_x cell_n_y cell_n_z.

Definition find_neighbor (para : Parameters real) : Host real unit :=
  (atom <- get_atom ;;
   match choose_method para (box_length atom) with
   | UseON2 =>
       enter CallON2 ;;;
       modify_atom (fun a => set_list a (find_neighbor_ON2 para a))
   | UseON1 cx cy cz =>
       enter (CallON1 cx cy cz) ;;;
       modify_atom (fun a => set_list a (find_neighbor_ON1 para a cx cy cz))
   end)%host.

(** *** find_neighbor (para, atom, is_first): the driver *)

Definition grid_of (N : Z) : Z :=
  Int.add (Int.div (Int.sub N 1) BLOCK_SIZE) 1.

(** gpu_apply_pbc<<<(N - 1) / BLOCK_SIZE + 1, BLOCK_SIZE>>>(...) *)
Definition apply_pbc (para : Parameters real) (a : Atom real) : Atom real :=
  launch (grid_of (N para)) BLOCK_SIZE
    (gpu_apply_pbc (N para) (pbc_x para) (pbc_y para) (pbc_z para)) a.

(** gpu_update_xyz0<<<(N - 1) / BLOCK_SIZE + 1, BLOCK_SIZE>>>(...) *)
Definition update_xyz0 (para : Parameters real) (a : Atom real) : Atom real :=
  launch (grid_of (N para)) BLOCK_SIZE (gpu_update_xyz0 (N para)) a.

Definition launch_gpu_apply_pbc (para : Parameters real) : Host real unit :=
  (enter CallApplyPbc ;;; modify_atom (apply_pbc para))%host.

Definition launch_gpu_update_xyz0 (para : Parameters real) : Host real unit :=
  (enter CallUpdateXyz0 ;;; modify_atom (update_xyz0 para))%host.

Definition find_neighbor_driver (para : Parameters real) (is_first : Z) : Host real unit :=
  (if is_first =? 1 then
     find_neighbor para ;;;
     check_bound para ;;;
     launch_gpu_update_xyz0 para
   else
     update <- check_atom_distance para ;;
     if negb (update =? 0) then
       find_neighbor para ;;;
       check_bound para ;;;
       launch_gpu_apply_pbc para ;;;
       launch_gpu_update_xyz0 para
     else ret tt)%host.

(** ** Notions the properties are stated with *)

Inductive Axis : Type := AxisX | AxisY | AxisZ.

Definition coord (d : Axis) (a : Atom real) : list real :=
  match d with AxisX => x a | AxisY => y a | AxisZ => z a end.

Definition coord0 (d : Axis) (a : Atom real) : list real :=
  match d with AxisX => x0 a | AxisY => y0 a | AxisZ => z0 a end.

Definition pbc_flag (d : Axis) (para : Parameters real) : Z :=
  match d with AxisX => pbc_x para | AxisY => pbc_y para | AxisZ => pbc_z para end.

Definition box_len (d : Axis) (a : Atom real) : real :=
  match d with
  | AxisX => (box_length a).[0]
  | AxisY => (box_length a).[1]
  | AxisZ => (box_length a).[2]
  end.

(** Every position array holds one entry per particle. *)
Definition wf_atom (N : Z) (a : Atom real) : Prop :=
  0 <= N <= Int.max_signed
  /\ (forall d, length (coord d a) = Z.to_nat N)
  /\ (forall d, length (coord0 d a) = Z.to_nat N).

(** The particles whose squared displacement exceeds [d2]. *)
Definition moved_particles (d2 : real) (N : Z) (atom : Atom real) : list Z :=
  filter (fun n => Is_true (moved d2 (x0 atom) (y0 atom) (z0 atom)
                              (x atom) (y atom) (z atom) n))
         (seqZ 0 N).

(** One coordinate array after the wrap, and a reference array after the
    snapshot. *)
Definition pull_back_all (N pbc : Z) (l : real) (arr : list real) : list real :=
  array_map (fun n => (n <? N) && (pbc =? 1)) (fun _ v => pull_back l v) arr.

Definition snapshot (N : Z) (src dst : list real) : list real :=
  array_map (fun n => n <? N) (fun n _ => src.[n]) dst.

(** The particles whose neighbor count exceeds the capacity. *)
Definition overflowing (para : Parameters real) (cpu_NN : list Z) : list Z :=
  filter (fun n => MN (neighbor para) < cpu_NN.[n]) (seqZ 0 (N para)).

(** The builder a method stands for. *)
Definition builder_call (m : Method) : Call :=
  match m with
  | UseON2 => CallON2
  | UseON1 cx cy cz => CallON1 cx cy cz
  end.

Definition run_builder (m : Method) (para : Parameters real) (a : Atom real)
    : NeighborList :=
  match m with
  | UseON2 => find_neighbor_ON2 para a
  | UseON1 cx cy cz => find_neighbor_ON1 para a cx cy cz
  end.

(** The cell count of an axis, 1 when the axis is not periodic, and
    whether a periodic axis has fewer than 3 cells. *)
Definition axis_count (pbc : Z) (box_d rc : real) : Z :=
  if pbc =? 0 then 1 else cell_count box_d rc.

Definition axis_too_few (pbc : Z) (box_d rc : real) : bool :=
  negb (pbc =? 0) && (cell_count box_d rc <? 3).

Definition log (w : World real) (cs : list Call) : World real :=
  {| w_atom := w_atom w; w_stdout := w_stdout w; w_calls := w_calls w ++ cs |}.

Definition with_atom (w : World real) (a : Atom real) : World real :=
  {| w_atom := a; w_stdout := w_stdout w; w_calls := w_calls w |}.

Definition print_all (w : World real) (lines : list string) : World real :=
  {| w_atom := w_atom w; w_stdout := w_stdout w ++ lines; w_calls := w_calls w |}.

(** What the two rebuilding paths of the driver do: build, validate, wrap
    ([steady] only), snapshot. *)
Definition rebuild (steady : bool) (para : Parameters real) (w : World real)
    : Outcome real unit :=
  let m := choose_method para (box_length (w_atom w)) in
  let a1 := set_list (w_atom w) (run_builder m para (w_atom w)) in
  let a2 := if steady then apply_pbc para a1 else a1 in
  match overflowing para (NN a1) with
  | [] =>
      Returned tt
        (with_atom
           (log w ([builder_call m; CallCheckBound]
                     ++ (if steady then [CallApplyPbc] else [])
                     ++ [CallUpdateXyz0]))
           (update_xyz0 para a2))
  | bad =>
      Exited 1
        (print_all (with_atom (log w [builder_call m; CallCheckBound]) a1)
           ((fun n => check_bound_line n (NN a1).[n] (MN (neighbor para))) <$> bad))
  end.

(** * Properties *)

(** ** Arithmetic of [int] *)

Section IntFacts.
Lemma repr_small z : Int.in_range z -> Int.repr z = z.
Proof.
  unfold Int.in_range, Int.repr, Int.min_signed, Int.max_signed, Int.modulus.
  intros. rewrite Z.mod_small; lia.
Qed.

Lemma repr_in_range a : Int.in_range (Int.repr a).
Proof.
  unfold Int.in_range, Int.repr, Int.min_signed, Int.max_signed, Int.modulus.
  pose proof (Z.mod_pos_bound (a + 2 ^ 31) (2 ^ 32)). lia.
Qed.

Lemma repr_add_l a b : Int.repr (Int.repr a + b) = Int.repr (a + b).
Proof.
  unfold Int.repr, Int.modulus. f_equal.
  replace ((a + 2 ^ 31) mod 2 ^ 32 - 2 ^ 31 + b + 2 ^ 31)
    with ((a + 2 ^ 31) mod 2 ^ 32 + b) by lia.
  rewrite Z.add_mod_idemp_l by lia. f_equal. lia.
Qed.

Lemma repr_add_r a b : Int.repr (a + Int.repr b) = Int.repr (a + b).
Proof. rewrite Z.add_comm, repr_add_l. f_equal. lia. Qed.

End IntFacts.

(** ** Finite sums *)

Section Sums.
Implicit Types (f g : nat -> Z) (k m : nat).

Lemma sumto_ext f g k :
  (forall i, (i < k)%nat -> f i = g i) -> sumto f k = sumto g k.
Proof.
  induction k as [|k IH]; intros Hfg; simpl; [reflexivity|].
  rewrite IH by (intros; apply Hfg; lia). rewrite Hfg by lia. reflexivity.
Qed.

Lemma sumto_plus f g k :
  sumto (fun i => f i + g i) k = sumto f k + sumto g k.
Proof. induction k as [|k IH]; simpl; lia. Qed.

Lemma sumto_app f k m :
  sumto f (k + m) = sumto f k + sumto (fun i => f (k + i)%nat) m.
Proof.
  induction m as [|m IH]; simpl.
  - rewrite Nat.add_0_r. lia.
  - rewrite Nat.add_succ_r. simpl. rewrite IH. lia.
Qed.

Lemma sumto_zero f k : (forall i, (i < k)%nat -> f i = 0) -> sumto f k = 0.
Proof.
  induction k as [|k IH]; intros Hf; simpl; [reflexivity|].
  rewrite IH, Hf by (intros; try apply Hf; lia). reflexivity.
Qed.

Lemma sumto_repr f k :
  Int.repr (sumto (fun i => Int.repr (f i)) k) = Int.repr (sumto f k).
Proof.
  induction k as [|k IH]; simpl; [reflexivity|].
  rewrite repr_add_r, <- repr_add_l, IH, repr_add_l. reflexivity.
Qed.

Lemma sumto_bounds f k lo hi :
  (forall i, (i < k)%nat -> lo <= f i <= hi) ->
  Z.of_nat k * lo <= sumto f k <= Z.of_nat k * hi.
Proof.
  induction k as [|k IH]; intros Hf; simpl sumto; [lia|].
  specialize (IH ltac:(intros; apply Hf; lia)).
  specialize (Hf k ltac:(lia)). lia.
Qed.
Lemma sumto_exchange (f : nat -> nat -> Z) k m :
  sumto (fun i => sumto (fun j => f i j) m) k
  = sumto (fun j => sumto (fun i => f i j) k) m.
Proof.
  induction k as [|k IH]; simpl.
  - symmetry. apply sumto_zero. reflexivity.
  - rewrite IH, <- sumto_plus. reflexivity.
Qed.

(** Summing block by block is summing over the flat index. *)
Lemma sumto_blocks (f : nat -> Z) (width : nat) m :
  sumto (fun b => sumto (fun t => f (b * width + t)%nat) width) m
  = sumto f (m * width).
Proof.
  induction m as [|m IH]; [reflexivity|].
  replace (S m * width)%nat with (m * width + width)%nat by lia.
  rewrite sumto_app, <- IH. reflexivity.
Qed.

Lemma sumto_trim (f : nat -> Z) k m :
  (k <= m)%nat -> (forall i, (k <= i < m)%nat -> f i = 0) ->
  sumto f m = sumto f k.
Proof.
  intros Hkm Hz. replace m with (k + (m - k))%nat by lia.
  rewrite sumto_app, (sumto_zero (fun i => f (k + i)%nat)); [lia|].
  intros i Hi. apply Hz. lia.
Qed.

Lemma foldl_seqZ_S {A} (f : A -> Z -> A) a (k : nat) :
  foldl f a (seqZ 0 (Z.of_nat (S k))) = f (foldl f a (seqZ 0 (Z.of_nat k))) (Z.of_nat k).
Proof. rewrite seqZ_S, foldl_snoc. reflexivity. Qed.

(** A guarded [int] accumulation loop computes a sum modulo 2^32. *)
Lemma foldl_acc_sum (c : Z -> bool) (v : Z -> Z) (k : nat) :
  foldl (fun acc p => if c p then Int.add acc (v p) else acc) 0 (seqZ 0 (Z.of_nat k))
  = Int.repr (sumto (fun p => if c (Z.of_nat p) then v (Z.of_nat p) else 0) k).
Proof.
  induction k as [|k IH]; [reflexivity|].
  rewrite foldl_seqZ_S, IH. simpl sumto. destruct (c (Z.of_nat k)).
  - unfold Int.add. rewrite repr_add_l. reflexivity.
  - rewrite Z.add_0_r. reflexivity.
Qed.
End Sums.

(** ** The tree reduction *)

Section Reduction.
Implicit Types (s : list Z) (t k a : nat).

Lemma simt_add_length a k s : length (simt_add a k s) = length s.
Proof. unfold simt_add. apply length_imap. Qed.

Lemma simt_add_lookup a k s t :
  (t < length s)%nat ->
  simt_add a k s !!! t =
    if bool_decide (t < a)%nat then Int.add (s !!! t) (s !!! (t + k)%nat) else s !!! t.
Proof.
  intros Ht. apply list_lookup_total_correct.
  unfold simt_add. rewrite list_lookup_imap.
  rewrite (list_lookup_lookup_total_lt s t Ht). reflexivity.
Qed.

Lemma thread_add_length active stride s tid :
  length (thread_add active stride s tid) = length s.
Proof.
  unfold thread_add. destruct (bool_decide _); [apply length_insert|reflexivity].
Qed.

Lemma barrier_phase_lookup active stride order s0 s (j : nat) :
  (active <= stride)%nat ->
  NoDup order ->
  length s = length s0 ->
  (forall i, i ∈ order -> s !!! i = s0 !!! i) ->
  (forall i, (active <= i)%nat -> s !!! i = s0 !!! i) ->
  (j < length s0)%nat ->
  barrier_phase active stride order s !!! j
  = if bool_decide (j ∈ order) && bool_decide (j < active)%nat
    then Int.add (s0 !!! j) (s0 !!! (j + stride)%nat)
    else s !!! j.
Proof.
  intros Has. revert s. induction order as [|t order IH]; intros s Hnd Hlen Hin Hhi Hj.
  - rewrite (bool_decide_false (j ∈ [])) by apply not_elem_of_nil. reflexivity.
  - inversion Hnd as [|t' order' Ht Hnd']; subst t' order'; clear Hnd.
    rename Hnd' into Hnd. unfold barrier_phase. simpl foldl.
    fold (barrier_phase active stride order (thread_add active stride s t)).
    rewrite IH; clear IH.
    + unfold thread_add.
      destruct (decide (j = t)) as [->|Hne].
      * rewrite (bool_decide_false (t ∈ order)) by exact Ht.
        rewrite (bool_decide_true (t ∈ t :: order)) by left. simpl.
        destruct (bool_decide (t < active)%nat) eqn:Hact; [|reflexivity].
        apply bool_decide_eq_true in Hact.
        rewrite list_lookup_total_insert_eq by lia.
        rewrite (Hin t) by left. rewrite (Hhi (t + stride)%nat) by lia.
        reflexivity.
      * assert (Hiff : bool_decide (j ∈ t :: order) = bool_decide (j ∈ order)).
        { apply bool_decide_ext. rewrite elem_of_cons.
          split; [intros [->|Hjo]; [contradiction|exact Hjo]|intros Hjo; right; exact Hjo]. }
        rewrite Hiff. destruct (bool_decide (j ∈ order) && _); [reflexivity|].
        destruct (bool_decide (t < active)%nat); [|reflexivity].
        apply list_lookup_total_insert_ne. congruence.
    + exact Hnd.
    + rewrite thread_add_length. exact Hlen.
    + intros i Hi. unfold thread_add.
      destruct (bool_decide (t < active)%nat); [|apply Hin; right; exact Hi].
      rewrite list_lookup_total_insert_ne by (intros ->; contradiction).
      apply Hin. right. exact Hi.
    + intros i Hi. unfold thread_add.
      destruct (bool_decide (t < active)%nat) eqn:Hact; [|apply Hhi; exact Hi].
      apply bool_decide_eq_true in Hact.
      rewrite list_lookup_total_insert_ne by lia. apply Hhi. exact Hi.
    + exact Hj.
Qed.

(** When no thread reads a lane another thread writes ([active <= stride]),
    the phase leaves the same array whatever the order of the threads: the
    one the lock-step statement leaves. *)
Lemma barrier_phase_any_order active stride order s :
  (active <= stride)%nat ->
  order ≡ₚ seq 0 (length s) ->
  barrier_phase active stride order s = simt_add active stride s.
Proof.
  intros Has Hperm.
  assert (Hlen : length (barrier_phase active stride order s) = length s).
  { unfold barrier_phase. clear Hperm. revert s.
    induction order as [|t order IH]; intros s; simpl; [reflexivity|].
    rewrite IH. apply thread_add_length. }
  apply list_eq. intros j.
  destruct (decide (j < length s)%nat) as [Hj|Hj].
  - rewrite (list_lookup_lookup_total_lt _ j) by lia.
    rewrite (list_lookup_lookup_total_lt (simt_add _ _ _) j)
      by (rewrite simt_add_length; lia).
    f_equal. rewrite (barrier_phase_lookup active stride order s s j);
      [|exact Has| |reflexivity|reflexivity|reflexivity|exact Hj].
    + rewrite simt_add_lookup by exact Hj.
      rewrite (bool_decide_true (j ∈ order)); [reflexivity|].
      rewrite Hperm. apply elem_of_seq. lia.
    + rewrite Hperm. apply NoDup_seq.
  - rewrite !(proj2 (lookup_ge_None _ _)); [reflexivity| |];
      rewrite ?simt_add_length, ?Hlen; lia.
Qed.
(** After a step of stride [k] the first [k] lanes hold what the first
    [2 k] lanes held, modulo 2^32. *)
Lemma simt_add_sum a k s :
  (k <= a)%nat -> (2 * k <= length s)%nat ->
  Int.repr (sumto (fun t => simt_add a k s !!! t) k)
  = Int.repr (sumto (fun t => s !!! t) (k + k)).
Proof.
  intros Hka Hlen.
  rewrite (sumto_ext _ (fun t => Int.repr (s !!! t + s !!! (k + t)%nat))).
  - rewrite sumto_repr, sumto_plus, sumto_app. reflexivity.
  - intros t Ht. rewrite simt_add_lookup by lia.
    rewrite bool_decide_true by lia. unfold Int.add.
    rewrite (Nat.add_comm t k). reflexivity.
Qed.
Lemma simt_add_halve a k k2 s :
  k2 = (k + k)%nat -> (k <= a)%nat -> (k2 <= length s)%nat ->
  Int.repr (sumto (fun t => simt_add a k s !!! t) k)
  = Int.repr (sumto (fun t => s !!! t) k2).
Proof. intros -> ? ?. apply simt_add_sum; lia. Qed.

Lemma block_reduce_sum s :
  length s = 1024%nat ->
  block_reduce s = Int.repr (sumto (fun t => s !!! t) 1024).
Proof.
  intros Hlen. unfold block_reduce, warp_reduce, rd. cbv zeta.
  change (Z.to_nat 0) with 0%nat.
  rewrite simt_add_lookup by (rewrite !simt_add_length; lia).
  rewrite bool_decide_true by lia. unfold Int.add at 1.
  match goal with
  | |- Int.repr (?s9 !!! 0%nat + ?s9 !!! (0 + 1)%nat) = _ =>
      change (Int.repr (sumto (fun t => s9 !!! t) 2) = Int.repr (sumto (fun t => s !!! t) 1024))
  end.
  rewrite (simt_add_halve 32 2 4) by (rewrite ?simt_add_length; lia).
  rewrite (simt_add_halve 32 4 8) by (rewrite ?simt_add_length; lia).
  rewrite (simt_add_halve 32 8 16) by (rewrite ?simt_add_length; lia).
  rewrite (simt_add_halve 32 16 32) by (rewrite ?simt_add_length; lia).
  rewrite (simt_add_halve 32 32 64) by (rewrite ?simt_add_length; lia).
  rewrite (simt_add_halve 64 64 128) by (rewrite ?simt_add_length; lia).
  rewrite (simt_add_halve 128 128 256) by (rewrite ?simt_add_length; lia).
  rewrite (simt_add_halve 256 256 512) by (rewrite ?simt_add_length; lia).
  rewrite (simt_add_halve 512 512 1024) by (rewrite ?simt_add_length; lia).
  reflexivity.
Qed.
End Reduction.

(** ** The two reduction kernels *)

Section DisplacementKernels.

Lemma fmap_seqZ_length {A} (f : Z -> A) (n : Z) :
  length (f <$> seqZ 0 n) = Z.to_nat n.
Proof. rewrite length_fmap, length_seqZ. reflexivity. Qed.

Lemma fmap_seqZ_lookup `{Inhabited A} (f : Z -> A) (n : Z) (i : nat) :
  Z.of_nat i < n -> (f <$> seqZ 0 n) !!! i = f (Z.of_nat i).
Proof.
  intros Hi. apply list_lookup_total_correct.
  rewrite list_lookup_fmap, lookup_seqZ_lt by lia. reflexivity.
Qed.

Lemma check_atom_distance_1_sum N d2 x_old y_old z_old x_new y_new z_new bid :
  check_atom_distance_1 N d2 x_old y_old z_old x_new y_new z_new bid 1024
  = Int.repr (sumto (fun t =>
      check_atom_distance_1_flag N d2 x_old y_old z_old x_new y_new z_new
        bid 1024 (Z.of_nat t)) 1024).
Proof.
  unfold check_atom_distance_1. cbv zeta.
  rewrite block_reduce_sum by (rewrite fmap_seqZ_length; reflexivity).
  apply (f_equal Int.repr), sumto_ext. intros t Ht.
  apply fmap_seqZ_lookup. lia.
Qed.

(** The number of blocks of the first launch, and of patches of the
    second. *)
Lemma blocks_range n :
  - 2 ^ 21 < Int.add (Int.div (Int.sub n 1) 1024) 1 <= 2 ^ 21.
Proof.
  unfold Int.add, Int.div, Int.sub.
  pose proof (repr_in_range (n - 1)) as Hr.
  set (m := Int.repr (n - 1)) in *.
  unfold Int.in_range, Int.min_signed, Int.max_signed in Hr.
  assert (Hq : - 2 ^ 21 <= Z.quot m 1024 < 2 ^ 21).
  { Z.to_euclidean_division_equations. lia. }
  rewrite (repr_small (Z.quot m 1024))
    by (unfold Int.in_range, Int.min_signed, Int.max_signed; lia).
  rewrite repr_small
    by (unfold Int.in_range, Int.min_signed, Int.max_signed; lia).
  lia.
Qed.

Lemma blocks_cover n :
  1 <= n <= Int.max_signed ->
  n <= 1024 * Int.add (Int.div (Int.sub n 1) 1024) 1 < n + 1024.
Proof.
  unfold Int.max_signed. intros Hn.
  unfold Int.add, Int.div, Int.sub.
  rewrite (repr_small (n - 1))
    by (unfold Int.in_range, Int.min_signed, Int.max_signed; lia).
  assert (Hq : 0 <= Z.quot (n - 1) 1024 < 2 ^ 21
               /\ n <= 1024 * (Z.quot (n - 1) 1024 + 1) < n + 1024).
  { Z.to_euclidean_division_equations. lia. }
  rewrite (repr_small (Z.quot (n - 1) 1024))
    by (unfold Int.in_range, Int.min_signed, Int.max_signed; lia).
  rewrite repr_small
    by (unfold Int.in_range, Int.min_signed, Int.max_signed; lia).
  lia.
Qed.

Lemma seqZ_to_nat (n : Z) : seqZ 0 n = seqZ 0 (Z.of_nat (Z.to_nat n)).
Proof. unfold seqZ. rewrite Nat2Z.id. reflexivity. Qed.

(** Thread and patch (or block) indices stay inside an [int]. *)
Lemma flat_index_small (p t : nat) (P : Z) :
  P <= 2 ^ 21 -> Z.of_nat p < P -> (t < 1024)%nat ->
  Int.in_range (Z.of_nat p * 1024 + Z.of_nat t)
  /\ Int.in_range (Z.of_nat p * 1024).
Proof. unfold Int.in_range, Int.min_signed, Int.max_signed. lia. Qed.

Lemma check_atom_distance_2_sum M (g : list Z) :
  M <= Int.max_signed ->
  check_atom_distance_2 M g 1024
  = Int.repr (sumto (fun n => g !!! n) (Z.to_nat M)).
Proof.
  intros HM. unfold check_atom_distance_2. cbv zeta.
  rewrite block_reduce_sum by (rewrite fmap_seqZ_length; reflexivity).
  pose proof (blocks_range M) as HP.
  set (P := Int.add (Int.div (Int.sub M 1) 1024) 1) in *.
  set (H0 := fun n : nat => if Z.of_nat n <? M then g !!! n else 0).
  rewrite (sumto_ext _ (fun t =>
    Int.repr (sumto (fun p => H0 (p * 1024 + t)%nat) (Z.to_nat P)))).
  2:{ intros t Ht. rewrite fmap_seqZ_lookup by lia.
      unfold check_atom_distance_2_acc. cbv zeta. fold P.
      rewrite (seqZ_to_nat P).
      rewrite (foldl_acc_sum
        (fun p => Int.add (Z.of_nat t) (Int.mul p 1024) <? M)
        (fun p => g.[Int.add (Z.of_nat t) (Int.mul p 1024)])).
      apply (f_equal Int.repr), sumto_ext. intros p Hp.
      destruct (flat_index_small p t P) as [Hr1 Hr2]; [lia..|].
      unfold Int.add, Int.mul, H0, rd.
      rewrite (repr_small _ Hr2).
      replace (Z.of_nat t + Z.of_nat p * 1024)
        with (Z.of_nat p * 1024 + Z.of_nat t) by lia.
      rewrite (repr_small _ Hr1).
      replace (Z.of_nat p * 1024 + Z.of_nat t)
        with (Z.of_nat (p * 1024 + t)) by lia.
      rewrite Nat2Z.id. reflexivity. }
  rewrite sumto_repr, sumto_exchange, (sumto_blocks H0 1024).
  apply (f_equal Int.repr).
  rewrite (sumto_trim H0 (Z.to_nat M)).
  - apply sumto_ext. intros n Hn. unfold H0.
    destruct (Z.ltb_spec (Z.of_nat n) M); [reflexivity|lia].
  - destruct (Z_le_gt_dec M 0) as [Hle|Hgt]; [lia|].
    pose proof (blocks_cover M ltac:(lia)) as Hc. fold P in Hc. lia.
  - intros n Hn. unfold H0.
    destruct (Z.ltb_spec (Z.of_nat n) M); [lia|reflexivity].
Qed.

Lemma moved_particles_sum d2 atom (k : nat) :
  Z.of_nat (length (moved_particles d2 (Z.of_nat k) atom))
  = sumto (fun n =>
      if moved d2 (x0 atom) (y0 atom) (z0 atom) (x atom) (y atom) (z atom) (Z.of_nat n)
      then 1 else 0) k.
Proof.
  unfold moved_particles. induction k as [|k IH]; [reflexivity|].
  rewrite seqZ_S, list.filter_app, length_app, Nat2Z.inj_add, IH.
  simpl sumto. f_equal. rewrite Z.add_0_l.
  rewrite filter_cons, filter_nil.
  destruct (moved _ _ _ _ _ _ _ (Z.of_nat k)); reflexivity.
Qed.

(** The value copied back to the host is the number of particles that
    moved beyond the threshold. *)
Lemma check_atom_distance_d2_count d2 N atom :
  N <= Int.max_signed ->
  check_atom_distance_d2 d2 N atom
  = Z.of_nat (length (moved_particles d2 N atom)).
Proof.
  intros HN. unfold check_atom_distance_d2. cbv zeta.
  pose proof (blocks_range N) as HM.
  set (M := Int.add (Int.div (Int.sub N 1) 1024) 1) in *.
  rewrite check_atom_distance_2_sum
    by (unfold Int.max_signed; lia).
  set (F := fun n : nat =>
    if (Z.of_nat n <? N)
       && moved d2 (x0 atom) (y0 atom) (z0 atom) (x atom) (y atom) (z atom) (Z.of_nat n)
    then 1 else 0).
  rewrite (sumto_ext _ (fun b =>
    Int.repr (sumto (fun t => F (b * 1024 + t)%nat) 1024))).
  2:{ intros b Hb. rewrite fmap_seqZ_lookup by lia.
      rewrite check_atom_distance_1_sum.
      apply (f_equal Int.repr), sumto_ext. intros t Ht.
      destruct (flat_index_small b t M) as [Hr1 _]; [lia..|].
      unfold check_atom_distance_1_flag, F. cbv zeta.
      rewrite (repr_small _ Hr1).
      replace (Z.of_nat b * 1024 + Z.of_nat t)
        with (Z.of_nat (b * 1024 + t)) by lia.
      reflexivity. }
  rewrite sumto_repr, (sumto_blocks F 1024).
  rewrite (sumto_trim F (Z.to_nat N)).
  - unfold moved_particles. rewrite (seqZ_to_nat N).
    fold (moved_particles d2 (Z.of_nat (Z.to_nat N)) atom).
    rewrite moved_particles_sum.
    rewrite (sumto_ext F (fun n =>
      if moved d2 (x0 atom) (y0 atom) (z0 atom) (x atom) (y atom) (z atom) (Z.of_nat n)
      then 1 else 0)).
    + apply repr_small.
      pose proof (sumto_bounds (fun n =>
        if moved d2 (x0 atom) (y0 atom) (z0 atom) (x atom) (y atom) (z atom) (Z.of_nat n)
        then 1 else 0) (Z.to_nat N) 0 1) as Hb.
      unfold Int.in_range, Int.min_signed, Int.max_signed in *.
      assert (forall i, (i < Z.to_nat N)%nat ->
        0 <= (if moved d2 (x0 atom) (y0 atom) (z0 atom) (x atom) (y atom) (z atom) (Z.of_nat i)
              then 1 else 0) <= 1) as Hf
        by (intros; destruct (moved _ _ _ _ _ _ _ _); lia).
      specialize (Hb Hf). lia.
    + intros n Hn. unfold F.
      destruct (Z.ltb_spec (Z.of_nat n) N); [reflexivity|lia].
  - destruct (Z_le_gt_dec N 0) as [Hle|Hgt]; [lia|].
    pose proof (blocks_cover N ltac:(lia)) as Hc. fold M in Hc. lia.
  - intros n Hn. unfold F.
    destruct (Z.ltb_spec (Z.of_nat n) N); [lia|reflexivity].
Qed.
End DisplacementKernels.

(** ** Kernel launches *)

Section Launch.
Context {S : Type}.

Lemma launch_preserves {B} (proj : S -> B) grid block kernel (s : S) :
  (forall b d t s', proj (kernel b d t s') = proj s') ->
  proj (launch grid block kernel s) = proj s.
Proof.
  intros Hk. unfold launch.
  assert (Hin : forall b l s', proj (foldl (fun s t => kernel b block t s) s' l) = proj s').
  { intros b l. induction l as [|t l IH]; intros s'; simpl; [reflexivity|].
    rewrite IH. apply Hk. }
  generalize (seqZ 0 grid). intros l. revert s.
  induction l as [|b l IH]; intros s; simpl; [reflexivity|].
  rewrite IH. apply Hin.
Qed.

(** The threads of a launch, block after block, are the flat indices
    [0 .. grid * block - 1]. *)
Lemma launch_flat (grid : nat) (block : Z) kernel (body : Z -> S -> S) (s : S) :
  0 <= block ->
  (forall b t s', kernel b block t s' = body (b * block + t) s') ->
  launch (Z.of_nat grid) block kernel s
  = foldl (fun s i => body i s) s (seqZ 0 (Z.of_nat grid * block)).
Proof.
  intros Hb Hk. unfold launch.
  induction grid as [|g IH].
  - reflexivity.
  - rewrite foldl_seqZ_S, IH.
    replace (Z.of_nat (Datatypes.S g) * block)
      with (Z.of_nat g * block + block) by lia.
    rewrite seqZ_app, foldl_app by lia.
    replace (seqZ (0 + Z.of_nat g * block) block)
      with (Z.add (Z.of_nat g * block) <$> seqZ 0 block)
      by (rewrite fmap_add_seqZ; f_equal; lia).
    rewrite foldl_fmap.
    generalize (seqZ 0 block). intros l.
    generalize (foldl (fun s i => body i s) s (seqZ 0 (Z.of_nat g * block))).
    induction l as [|t l IHl]; intros s'; simpl; [reflexivity|].
    rewrite Hk. apply IHl.
Qed.
End Launch.

(** ** Kernels that write one slot per thread *)

Section ArrayKernels.
Context {A : Type} `{Inhabited A}.
Implicit Types (arr : list A) (c : Z -> bool) (g : Z -> A -> A).

Lemma wr_length arr n v : length arr.[n <- v] = length arr.
Proof. unfold wr. destruct (0 <=? n); [apply length_insert|reflexivity]. Qed.

Lemma array_step_length c g arr i : length (array_step c g arr i) = length arr.
Proof. unfold array_step. cbv zeta. destruct (c _); [apply wr_length|reflexivity]. Qed.

Lemma array_fold_length c g arr (l : list Z) :
  length (foldl (array_step c g) arr l) = length arr.
Proof.
  revert arr. induction l as [|i l IHl]; intros arr; simpl; [reflexivity|].
  rewrite IHl. apply array_step_length.
Qed.

Lemma array_fold_lookup c g arr (k : nat) (j : nat) :
  Z.of_nat k <= 2 ^ 31 ->
  foldl (array_step c g) arr (seqZ 0 (Z.of_nat k)) !! j
  = (fun v => if c (Z.of_nat j) && (Z.of_nat j <? Z.of_nat k)
              then g (Z.of_nat j) v else v) <$> arr !! j.
Proof.
  induction k as [|k IH]; intros Hk.
  - simpl. destruct (arr !! j); simpl; [|reflexivity].
    rewrite (proj2 (Z.ltb_ge _ _)), andb_false_r by lia. reflexivity.
  - rewrite foldl_seqZ_S. specialize (IH ltac:(lia)).
    set (arr' := foldl (array_step c g) arr (seqZ 0 (Z.of_nat k))) in *.
    assert (Hlen : length arr' = length arr) by apply array_fold_length.
    unfold array_step. cbv zeta.
    rewrite (repr_small (Z.of_nat k))
      by (unfold Int.in_range, Int.min_signed, Int.max_signed; lia).
    destruct (c (Z.of_nat k)) eqn:Hc.
    + unfold wr, rd. rewrite (proj2 (Z.leb_le 0 _)) by lia. rewrite Nat2Z.id.
      destruct (decide (j = k)) as [->|Hne].
      * rewrite Hc. rewrite (proj2 (Z.ltb_lt _ _)) by lia. simpl.
        destruct (arr !! k) as [v|] eqn:Hv.
        -- rewrite list_lookup_insert_eq
             by (rewrite Hlen; eapply lookup_lt_Some; eassumption).
           simpl. f_equal. f_equal.
           apply list_lookup_total_correct. rewrite IH. simpl.
           rewrite Z.ltb_irrefl, andb_false_r. reflexivity.
        -- simpl. apply lookup_ge_None. rewrite length_insert, Hlen.
           apply lookup_ge_None. assumption.
      * rewrite list_lookup_insert_ne by congruence. rewrite IH.
        destruct (arr !! j); simpl; [|reflexivity]. f_equal.
        destruct (c (Z.of_nat j)); simpl; [|reflexivity].
        destruct (Z.ltb_spec (Z.of_nat j) (Z.of_nat k)),
          (Z.ltb_spec (Z.of_nat j) (Z.of_nat (Datatypes.S k))); try reflexivity; lia.
    + rewrite IH. destruct (arr !! j); simpl; [|reflexivity]. f_equal.
      destruct (decide (j = k)) as [->|Hne].
      * rewrite Hc. reflexivity.
      * destruct (c (Z.of_nat j)); simpl; [|reflexivity].
        destruct (Z.ltb_spec (Z.of_nat j) (Z.of_nat k)),
          (Z.ltb_spec (Z.of_nat j) (Z.of_nat (Datatypes.S k))); try reflexivity; lia.
Qed.

(** A grid that covers every index where the guard holds applies [g]
    at exactly those indices. *)
Lemma array_fold c g arr (k : nat) :
  Z.of_nat k <= 2 ^ 31 ->
  (forall j, c (Z.of_nat j) = true -> (j < k)%nat) ->
  foldl (array_step c g) arr (seqZ 0 (Z.of_nat k)) = array_map c g arr.
Proof.
  intros Hk Hcover. apply list_eq. intros j.
  rewrite array_fold_lookup by assumption.
  unfold array_map. rewrite list_lookup_imap.
  destruct (arr !! j); simpl; [|reflexivity]. f_equal.
  destruct (c (Z.of_nat j)) eqn:Hc; simpl; [|reflexivity].
  rewrite (proj2 (Z.ltb_lt _ _)); [reflexivity|].
  specialize (Hcover j Hc). lia.
Qed.
End ArrayKernels.

(** ** The wrap and the snapshot as array maps *)

Section Kernels.
Implicit Types (a : Atom real) (para : Parameters real).

Lemma grid_of_range n : - 2 ^ 24 < grid_of n <= 2 ^ 24.
Proof.
  unfold grid_of, BLOCK_SIZE, Int.add, Int.div, Int.sub.
  pose proof (repr_in_range (n - 1)) as Hr.
  set (m := Int.repr (n - 1)) in *.
  unfold Int.in_range, Int.min_signed, Int.max_signed in Hr.
  assert (Hq : - 2 ^ 24 <= Z.quot m 128 < 2 ^ 24).
  { Z.to_euclidean_division_equations. lia. }
  rewrite (repr_small (Z.quot m 128))
    by (unfold Int.in_range, Int.min_signed, Int.max_signed; lia).
  rewrite repr_small
    by (unfold Int.in_range, Int.min_signed, Int.max_signed; lia).
  lia.
Qed.

Lemma grid_of_cover n :
  1 <= n <= Int.max_signed -> n <= grid_of n * 128.
Proof.
  unfold Int.max_signed. intros Hn.
  unfold grid_of, BLOCK_SIZE, Int.add, Int.div, Int.sub.
  rewrite (repr_small (n - 1))
    by (unfold Int.in_range, Int.min_signed, Int.max_signed; lia).
  assert (Hq : 0 <= Z.quot (n - 1) 128 < 2 ^ 24
               /\ n <= 128 * (Z.quot (n - 1) 128 + 1)).
  { Z.to_euclidean_division_equations. lia. }
  rewrite (repr_small (Z.quot (n - 1) 128))
    by (unfold Int.in_range, Int.min_signed, Int.max_signed; lia).
  rewrite repr_small
    by (unfold Int.in_range, Int.min_signed, Int.max_signed; lia).
  lia.
Qed.

(** A kernel whose guard implies [n < N], launched on the grid of the
    driver, reaches every index where the guard holds. *)
Lemma driver_launch {S} (N : Z) (kernel : Z -> Z -> Z -> S -> S) (s : S) :
  launch (grid_of N) BLOCK_SIZE kernel s
  = launch (Z.of_nat (Z.to_nat (grid_of N))) BLOCK_SIZE kernel s.
Proof. unfold launch. rewrite (seqZ_to_nat (grid_of N)). reflexivity. Qed.

Lemma driver_array_fold {A} `{Inhabited A} (N : Z) (c : Z -> bool)
    (g : Z -> A -> A) (arr : list A) :
  N <= Int.max_signed ->
  (forall n, c n = true -> n < N) ->
  foldl (array_step c g) arr
    (seqZ 0 (Z.of_nat (Z.to_nat (grid_of N)) * BLOCK_SIZE))
  = array_map c g arr.
Proof.
  intros HN Hc. pose proof (grid_of_range N) as Hg. unfold BLOCK_SIZE.
  replace (Z.of_nat (Z.to_nat (grid_of N)) * 128)
    with (Z.of_nat (Z.to_nat (grid_of N) * 128)) by lia.
  apply array_fold; [lia|].
  intros j Hj. specialize (Hc _ Hj).
  pose proof (grid_of_cover N ltac:(lia)). lia.
Qed.

(** *** gpu_update_xyz0 *)

Lemma gpu_update_xyz0_step N a i :
  gpu_update_xyz0 N 0 0 i a
  = set_xyz0 a
      (array_step (fun n => n <? N) (fun n _ => (x a).[n]) (x0 a) i)
      (array_step (fun n => n <? N) (fun n _ => (y a).[n]) (y0 a) i)
      (array_step (fun n => n <? N) (fun n _ => (z a).[n]) (z0 a) i).
Proof.
  unfold gpu_update_xyz0, array_step. cbv zeta.
  change (0 * 0 + i) with i.
  destruct (Int.repr i <? N); [reflexivity|]. destruct a; reflexivity.
Qed.

Lemma gpu_update_xyz0_fold N a (l : list Z) :
  foldl (fun a i => gpu_update_xyz0 N 0 0 i a) a l
  = set_xyz0 a
      (foldl (array_step (fun n => n <? N) (fun n _ => (x a).[n])) (x0 a) l)
      (foldl (array_step (fun n => n <? N) (fun n _ => (y a).[n])) (y0 a) l)
      (foldl (array_step (fun n => n <? N) (fun n _ => (z a).[n])) (z0 a) l).
Proof.
  revert a. induction l as [|i l IH]; intros a; simpl.
  - destruct a; reflexivity.
  - rewrite IH, gpu_update_xyz0_step. reflexivity.
Qed.

Lemma update_xyz0_spec para a :
  N para <= Int.max_signed ->
  update_xyz0 para a
  = set_xyz0 a (snapshot (N para) (x a) (x0 a))
               (snapshot (N para) (y a) (y0 a))
               (snapshot (N para) (z a) (z0 a)).
Proof.
  intros HN. unfold update_xyz0. rewrite driver_launch.
  rewrite (launch_flat _ _ _ (fun i a => gpu_update_xyz0 (N para) 0 0 i a))
    by (unfold BLOCK_SIZE; first [lia | intros; reflexivity]).
  rewrite gpu_update_xyz0_fold. unfold snapshot.
  rewrite !driver_array_fold
    by (try exact HN; intros n Hn; apply Z.ltb_lt; exact Hn).
  reflexivity.
Qed.

(** *** gpu_apply_pbc *)

Lemma gpu_apply_pbc_step N px py pz a i :
  gpu_apply_pbc N px py pz 0 0 i a
  = set_xyz a
      (array_step (fun n => (n <? N) && (px =? 1))
         (fun _ v => pull_back (box_length a).[0] v) (x a) i)
      (array_step (fun n => (n <? N) && (py =? 1))
         (fun _ v => pull_back (box_length a).[1] v) (y a) i)
      (array_step (fun n => (n <? N) && (pz =? 1))
         (fun _ v => pull_back (box_length a).[2] v) (z a) i).
Proof.
  unfold gpu_apply_pbc, array_step. cbv zeta.
  change (0 * 0 + i) with i.
  destruct (Int.repr i <? N); simpl; [reflexivity|]. destruct a; reflexivity.
Qed.

Lemma gpu_apply_pbc_fold N px py pz a (l : list Z) :
  foldl (fun a i => gpu_apply_pbc N px py pz 0 0 i a) a l
  = set_xyz a
      (foldl (array_step (fun n => (n <? N) && (px =? 1))
         (fun _ v => pull_back (box_length a).[0] v)) (x a) l)
      (foldl (array_step (fun n => (n <? N) && (py =? 1))
         (fun _ v => pull_back (box_length a).[1] v)) (y a) l)
      (foldl (array_step (fun n => (n <? N) && (pz =? 1))
         (fun _ v => pull_back (box_length a).[2] v)) (z a) l).
Proof.
  revert a. induction l as [|i l IH]; intros a; simpl.
  - destruct a; reflexivity.
  - rewrite IH, gpu_apply_pbc_step. reflexivity.
Qed.

Lemma apply_pbc_spec para a :
  N para <= Int.max_signed ->
  apply_pbc para a
  = set_xyz a
      (pull_back_all (N para) (pbc_x para) (box_length a).[0] (x a))
      (pull_back_all (N para) (pbc_y para) (box_length a).[1] (y a))
      (pull_back_all (N para) (pbc_z para) (box_length a).[2] (z a)).
Proof.
  intros HN. unfold apply_pbc. rewrite driver_launch.
  rewrite (launch_flat _ _ _
    (fun i a => gpu_apply_pbc (N para) (pbc_x para) (pbc_y para) (pbc_z para) 0 0 i a))
    by (unfold BLOCK_SIZE; first [lia | intros; reflexivity]).
  rewrite gpu_apply_pbc_fold. unfold pull_back_all.
  rewrite !driver_array_fold
    by (try exact HN; intros n Hn; apply andb_prop in Hn;
        apply Z.ltb_lt; exact (proj1 Hn)).
  reflexivity.
Qed.
End Kernels.

(** ** The host functions *)

Section HostFunctions.
Implicit Types (a : Atom real) (para : Parameters real) (w : World real).

Lemma print_all_nil w : print_all w [] = w.
Proof. destruct w. unfold print_all. simpl. rewrite app_nil_r. reflexivity. Qed.

Lemma print_all_cons w line lines :
  print_all (print_all w [line]) lines = print_all w (line :: lines).
Proof. unfold print_all. simpl. rewrite <- app_assoc. reflexivity. Qed.

(** *** check_bound *)

Lemma check_bound_loop_spec para cpu_NN flag (ns : list Z) w :
  let bad := filter (fun n => MN (neighbor para) < cpu_NN.[n]) ns in
  check_bound_loop para cpu_NN flag ns w
  = Returned (if decide (bad = []) then flag else 1)
      (print_all w
         ((fun n => check_bound_line n cpu_NN.[n] (MN (neighbor para))) <$> bad)).
Proof.
  cbv zeta. revert flag w. induction ns as [|n ns IH]; intros flag w.
  - simpl. rewrite print_all_nil. reflexivity.
  - simpl check_bound_loop. unfold bind, check_bound_iter.
    rewrite Z.gtb_ltb.
    destruct (Z.ltb_spec (MN (neighbor para)) cpu_NN.[n]) as [Hlt|Hge].
    + rewrite filter_cons_True by exact Hlt.
      unfold bind, printf, ret. rewrite IH. simpl fmap.
      rewrite <- print_all_cons.
      destruct (decide (_ = [])); reflexivity.
    + rewrite filter_cons_False by lia. unfold ret. cbv beta iota. apply IH.
Qed.

Lemma check_bound_spec para w :
  check_bound para w
  = match overflowing para (NN (w_atom w)) with
    | [] => Returned tt (log w [CallCheckBound])
    | bad =>
        Exited 1
          (print_all (log w [CallCheckBound])
             ((fun n => check_bound_line n (NN (w_atom w)).[n] (MN (neighbor para)))
                <$> bad))
    end.
Proof.
  unfold check_bound, bind, enter, get_atom. simpl w_atom.
  rewrite check_bound_loop_spec. cbv zeta. fold (overflowing para (NN (w_atom w))).
  destruct (overflowing para (NN (w_atom w))) as [|n bad].
  - simpl. rewrite print_all_nil. reflexivity.
  - rewrite decide_False by discriminate. reflexivity.
Qed.

(** *** find_neighbor *)

Lemma find_neighbor_spec para w :
  let m := choose_method para (box_length (w_atom w)) in
  find_neighbor para w
  = Returned tt
      (with_atom (log w [builder_call m])
         (set_list (w_atom w) (run_builder m para (w_atom w)))).
Proof.
  cbv zeta. unfold find_neighbor, bind, get_atom.
  destruct (choose_method para (box_length (w_atom w))); reflexivity.
Qed.

(** *** check_atom_distance *)

Lemma check_atom_distance_spec para w :
  check_atom_distance para w
  = Returned (check_atom_distance_d2 (r_mul r_half r_half) (N para) (w_atom w))
      (log w [CallCheckDistance]).
Proof. reflexivity. Qed.

(** *** The driver, one case after the other *)

Lemma driver_unfold para is_first w :
  find_neighbor_driver para is_first w
  = if is_first =? 1 then rebuild false para w
    else if check_atom_distance_d2 (r_mul r_half r_half) (N para) (w_atom w) =? 0
         then Returned tt (log w [CallCheckDistance])
         else rebuild true para (log w [CallCheckDistance]).
Proof.
  unfold find_neighbor_driver, rebuild. cbv zeta.
  destruct (is_first =? 1).
  - unfold bind at 1. rewrite find_neighbor_spec. cbv zeta.
    unfold bind at 1. rewrite check_bound_spec.
    cbn [w_atom with_atom log].
    destruct (overflowing _ _) as [|n bad].
    + unfold launch_gpu_update_xyz0, bind, enter, modify_atom, with_atom, log.
      cbn [w_atom w_stdout w_calls]. rewrite <- !app_assoc. reflexivity.
    + unfold print_all, with_atom, log.
      cbn [w_atom w_stdout w_calls]. rewrite <- !app_assoc. reflexivity.
  - unfold bind at 1. rewrite check_atom_distance_spec.
    destruct (check_atom_distance_d2 _ _ _ =? 0); cbn [negb]; cbv beta iota.
    + reflexivity.
    + unfold bind at 1. cbv beta. rewrite find_neighbor_spec. cbv zeta.
      unfold bind at 1. rewrite check_bound_spec.
      cbn [w_atom with_atom log].
      destruct (overflowing _ _) as [|n bad].
      * unfold launch_gpu_apply_pbc, launch_gpu_update_xyz0,
          bind, enter, modify_atom, with_atom, log.
        cbn [w_atom w_stdout w_calls]. rewrite <- !app_assoc. reflexivity.
      * unfold print_all, with_atom, log.
        cbn [w_atom w_stdout w_calls]. rewrite <- !app_assoc. reflexivity.
Qed.
End HostFunctions.

(** ** The displacement monitor *)

Section DisplacementMonitor.
Implicit Types (para : Parameters real) (w : World real).

Lemma moved_particles_elem (d2 : real) N0 (atom : Atom real) n :
  n ∈ moved_particles d2 N0 atom
  <-> 0 <= n < N0
      /\ moved d2 (x0 atom) (y0 atom) (z0 atom) (x atom) (y atom) (z atom) n = true.
Proof.
  unfold moved_particles.
  rewrite list_elem_of_filter, elem_of_seqZ, Is_true_true, Z.add_0_l.
  apply and_comm.
Qed.

(** C8: [check_atom_distance] returns the exact number of particles whose
    squared displacement since the last snapshot strictly exceeds the
    threshold: the two launches compute the sum of the per-particle 0/1
    flags, for the threshold [d2] handed to the kernels as for the
    threshold [HALF * HALF] the host function passes, and a lane whose
    index is not below [N] contributes 0. *)
Theorem check_atom_distance_counts_moved para w (d2 : real) :
  1 <= N para <= Int.max_signed ->
  check_atom_distance_d2 d2 (N para) (w_atom w)
  = Z.of_nat (length (moved_particles d2 (N para) (w_atom w)))
  /\ check_atom_distance para w
     = Returned
         (Z.of_nat (length (moved_particles (r_mul r_half r_half) (N para) (w_atom w))))
         (log w [CallCheckDistance])
  /\ (forall x_old y_old z_old x_new y_new z_new bid tid,
        N para <= Int.repr (bid * 1024 + tid) ->
        check_atom_distance_1_flag (N para) d2 x_old y_old z_old x_new y_new z_new
          bid 1024 tid = 0).
Proof.
  intros [_ HN]. split; [|split].
  - apply check_atom_distance_d2_count. exact HN.
  - rewrite check_atom_distance_spec, check_atom_distance_d2_count by exact HN.
    reflexivity.
  - intros x_old y_old z_old x_new y_new z_new bid tid Hn.
    unfold check_atom_distance_1_flag. cbv zeta.
    rewrite (proj2 (Z.ltb_ge _ _)) by exact Hn. reflexivity.
Qed.

(** C1: the displacement check returns a nonzero value if and only if some
    particle [n < N] has [dx * dx + dy * dy + dz * dz > d2]; the host
    function returns the value computed for [d2 = HALF * HALF] and changes
    no array. *)
Theorem check_atom_distance_nonzero_iff para w (d2 : real) :
  N para <= Int.max_signed ->
  (check_atom_distance_d2 d2 (N para) (w_atom w) <> 0
   <-> exists n, 0 <= n < N para
         /\ moved d2 (x0 (w_atom w)) (y0 (w_atom w)) (z0 (w_atom w))
              (x (w_atom w)) (y (w_atom w)) (z (w_atom w)) n = true)
  /\ check_atom_distance para w
     = Returned (check_atom_distance_d2 (r_mul r_half r_half) (N para) (w_atom w))
         (log w [CallCheckDistance]).
Proof.
  intros HN. split; [|apply check_atom_distance_spec].
  rewrite check_atom_distance_d2_count by exact HN.
  destruct (moved_particles d2 (N para) (w_atom w)) as [|n l] eqn:Hl.
  - split; [intros Hne; elim Hne; reflexivity|].
    intros (n & Hn & Hm).
    assert (Hin : n ∈ moved_particles d2 (N para) (w_atom w))
      by (apply moved_particles_elem; split; assumption).
    rewrite Hl in Hin. inversion Hin.
  - split; [|simpl length; lia].
    intros _. exists n. apply moved_particles_elem. rewrite Hl. left.
Qed.

End DisplacementMonitor.

(** ** The capacity validator *)

Section CapacityValidator.
Implicit Types (para : Parameters real) (w : World real).

(** C3: [check_bound] inspects the count of every particle.  When no count
    exceeds [MN] it returns and leaves the arrays and the output as they
    were; otherwise it prints one line per offending particle, in index
    order and not only for the first, each naming the index, the count and
    [MN], and ends the process with status 1; in both cases the neighbor
    list is left as the builder wrote it. *)
Theorem check_bound_validates para w :
  check_bound para w
  = match overflowing para (NN (w_atom w)) with
    | [] => Returned tt (log w [CallCheckBound])
    | bad =>
        Exited 1
          (print_all (log w [CallCheckBound])
             ((fun n => check_bound_line n (NN (w_atom w)).[n] (MN (neighbor para)))
                <$> bad))
    end
  /\ (forall n, n ∈ overflowing para (NN (w_atom w))
                <-> 0 <= n < N para /\ MN (neighbor para) < (NN (w_atom w)).[n])
  /\ (forall lines,
        w_atom (print_all (log w [CallCheckBound]) lines) = w_atom w
        /\ w_stdout (log w [CallCheckBound]) = w_stdout w)
  /\ (forall n count mn,
        check_bound_line n count mn
        = ("Error: NN[" ++ fmt_d n ++ "] = " ++ fmt_d count ++ " > " ++ fmt_d mn
             ++ newline)%string).
Proof.
  split; [apply check_bound_spec|]. split; [|split].
  - intros n. unfold overflowing.
    rewrite list_elem_of_filter, elem_of_seqZ, Z.add_0_l. apply and_comm.
  - intros lines. split; reflexivity.
  - reflexivity.
Qed.

End CapacityValidator.

(** ** The controller *)

Section Controller.
Implicit Types (para : Parameters real) (w : World real) (a : Atom real).

Ltac not_a_callee :=
  let Hin := fresh "Hin" in
  intros Hin;
  repeat (apply elem_of_cons in Hin; destruct Hin as [Hin|Hin]; [discriminate Hin|]);
  apply elem_of_nil in Hin; exact Hin.

Lemma array_map_length {A} (c : Z -> bool) (g : Z -> A -> A) (arr : list A) :
  length (array_map c g arr) = length arr.
Proof. unfold array_map. apply length_imap. Qed.

Lemma snapshot_full N0 (src dst : list real) :
  length dst = length src -> Z.of_nat (length src) <= N0 ->
  snapshot N0 src dst = src.
Proof.
  intros Hlen HN. unfold snapshot, array_map. apply list_eq. intros j.
  rewrite list_lookup_imap.
  destruct (dst !! j) as [v|] eqn:Hd; simpl.
  - apply lookup_lt_Some in Hd.
    rewrite (proj2 (Z.ltb_lt _ _)) by lia.
    unfold rd. rewrite Nat2Z.id. symmetry.
    apply list_lookup_lookup_total_lt. lia.
  - apply lookup_ge_None in Hd. symmetry. apply lookup_ge_None. lia.
Qed.

Lemma wf_atom_set_list N0 a l : wf_atom N0 a -> wf_atom N0 (set_list a l).
Proof.
  intros (HN & Hc & Hc0). split; [exact HN|].
  split; intros d; [rewrite <- (Hc d)|rewrite <- (Hc0 d)]; destruct d; reflexivity.
Qed.

Lemma apply_pbc_coord para a d :
  N para <= Int.max_signed ->
  coord d (apply_pbc para a)
  = pull_back_all (N para) (pbc_flag d para) (box_len d a) (coord d a).
Proof. intros HN. rewrite apply_pbc_spec by exact HN. destruct d; reflexivity. Qed.

Lemma apply_pbc_coord0 para a d : coord0 d (apply_pbc para a) = coord0 d a.
Proof.
  unfold apply_pbc. apply (launch_preserves (coord0 d)).
  intros b bd t s'. unfold gpu_apply_pbc. cbv zeta.
  destruct (_ <? _); destruct d; reflexivity.
Qed.

Lemma wf_atom_apply_pbc para a :
  wf_atom (N para) a -> wf_atom (N para) (apply_pbc para a).
Proof.
  intros (HN & Hc & Hc0). split; [exact HN|]. split; intros d.
  - rewrite apply_pbc_coord by lia. unfold pull_back_all.
    rewrite array_map_length. apply Hc.
  - rewrite apply_pbc_coord0. apply Hc0.
Qed.

(** On a well-formed atom the snapshot makes the reference arrays equal to
    the position arrays. *)
Lemma update_xyz0_wf para a :
  wf_atom (N para) a ->
  update_xyz0 para a = set_xyz0 a (x a) (y a) (z a).
Proof.
  intros (HN & Hc & Hc0). rewrite update_xyz0_spec by lia.
  pose proof (Hc AxisX). pose proof (Hc AxisY). pose proof (Hc AxisZ).
  pose proof (Hc0 AxisX). pose proof (Hc0 AxisY). pose proof (Hc0 AxisZ).
  simpl in *. rewrite !snapshot_full by lia. reflexivity.
Qed.

(** C4: a steady-state call ([is_first != 1]) whose displacement check
    returns zero returns at once: the only callee entered is the check, no
    builder runs, and the neighbor list, the positions and the reference
    positions are what they were. *)
Theorem steady_state_no_rebuild para is_first w :
  is_first <> 1 ->
  check_atom_distance_d2 (r_mul r_half r_half) (N para) (w_atom w) = 0 ->
  find_neighbor_driver para is_first w = Returned tt (log w [CallCheckDistance])
  /\ w_atom (log w [CallCheckDistance]) = w_atom w
  /\ w_stdout (log w [CallCheckDistance]) = w_stdout w
  /\ w_calls (log w [CallCheckDistance]) = w_calls w ++ [CallCheckDistance]
  /\ is_builder CallCheckDistance = false.
Proof.
  intros Hfirst Hzero. split; [|repeat split].
  rewrite driver_unfold, Hzero.
  rewrite (proj2 (Z.eqb_neq _ _)) by exact Hfirst. reflexivity.
Qed.

(** C5: a bootstrap call ([is_first == 1]) always runs the selected
    builder, then [check_bound], then the snapshot; it runs neither the
    displacement check nor the periodic wrap.  When the capacity check
    passes, the positions are the ones the call received and the reference
    positions are equal to them; when it fails the process ends with
    status 1 before the snapshot. *)
Theorem bootstrap_rebuilds para w :
  wf_atom (N para) (w_atom w) ->
  let m := choose_method para (box_length (w_atom w)) in
  let a1 := set_list (w_atom w) (run_builder m para (w_atom w)) in
  find_neighbor_driver para 1 w
  = match overflowing para (NN a1) with
    | [] =>
        Returned tt
          (with_atom (log w [builder_call m; CallCheckBound; CallUpdateXyz0])
             (set_xyz0 a1 (x (w_atom w)) (y (w_atom w)) (z (w_atom w))))
    | bad =>
        Exited 1
          (print_all (with_atom (log w [builder_call m; CallCheckBound]) a1)
             ((fun n => check_bound_line n (NN a1).[n] (MN (neighbor para))) <$> bad))
    end
  /\ (forall d, coord d (set_xyz0 a1 (x (w_atom w)) (y (w_atom w)) (z (w_atom w)))
                = coord d (w_atom w)
                /\ coord0 d (set_xyz0 a1 (x (w_atom w)) (y (w_atom w)) (z (w_atom w)))
                   = coord d (w_atom w))
  /\ (CallCheckDistance ∉ [builder_call m; CallCheckBound; CallUpdateXyz0])
  /\ (CallApplyPbc ∉ [builder_call m; CallCheckBound; CallUpdateXyz0]).
Proof.
  intros Hwf m a1. split; [|split; [|split]].
  - rewrite driver_unfold. change (1 =? 1) with true. cbv iota.
    unfold rebuild. cbv zeta. fold m. fold a1.
    destruct (overflowing para (NN a1)); [|reflexivity].
    rewrite update_xyz0_wf by (apply wf_atom_set_list; exact Hwf).
    reflexivity.
  - intros d. destruct d; split; reflexivity.
  - destruct m; not_a_callee.
  - destruct m; not_a_callee.
Qed.

(** C6: in every call that rebuilds, the callees run in the order build,
    [check_bound], periodic wrap (steady state only), snapshot; a call
    that does not rebuild enters the displacement check alone, so the wrap
    runs only right after a rebuild; and when a rebuilding call returns,
    the reference positions are the positions as the wrap left them. *)
Theorem rebuild_order para is_first w :
  wf_atom (N para) (w_atom w) ->
  let steady := negb (is_first =? 1) in
  let w0 := if steady then log w [CallCheckDistance] else w in
  let m := choose_method para (box_length (w_atom w)) in
  let a1 := set_list (w_atom w) (run_builder m para (w_atom w)) in
  let a2 := if steady then apply_pbc para a1 else a1 in
  find_neighbor_driver para is_first w
  = if steady
       && (check_atom_distance_d2 (r_mul r_half r_half) (N para) (w_atom w) =? 0)
    then Returned tt w0
    else
      match overflowing para (NN a1) with
      | [] =>
          Returned tt
            (with_atom
               (log w0 ([builder_call m; CallCheckBound]
                          ++ (if steady then [CallApplyPbc] else [])
                          ++ [CallUpdateXyz0]))
               (set_xyz0 a2 (x a2) (y a2) (z a2)))
      | bad =>
          Exited 1
            (print_all (with_atom (log w0 [builder_call m; CallCheckBound]) a1)
               ((fun n => check_bound_line n (NN a1).[n] (MN (neighbor para))) <$> bad))
      end.
Proof.
  intros Hwf steady w0 m a1 a2.
  assert (Hwf1 : wf_atom (N para) a1) by (apply wf_atom_set_list; exact Hwf).
  rewrite driver_unfold. subst steady w0 a2.
  destruct (is_first =? 1); cbn [negb andb]; cbv iota.
  - unfold rebuild. cbv zeta. fold m. fold a1.
    destruct (overflowing para (NN a1)); [|reflexivity].
    rewrite update_xyz0_wf by exact Hwf1. reflexivity.
  - destruct (check_atom_distance_d2 _ _ _ =? 0); [reflexivity|].
    unfold rebuild. cbv zeta. cbn [w_atom log]. fold m. fold a1.
    destruct (overflowing para (NN a1)); [|reflexivity].
    rewrite update_xyz0_wf by (apply wf_atom_apply_pbc; exact Hwf1).
    reflexivity.
Qed.

End Controller.

(** ** The periodic wrap: what it leaves alone *)

Section PeriodicWrapperFrame.
Implicit Types (para : Parameters real) (w : World real) (a : Atom real).

Lemma gpu_apply_pbc_frame N0 px py pz b bd t a :
  let a' := gpu_apply_pbc N0 px py pz b bd t a in
  NN a' = NN a /\ NL a' = NL a
  /\ x0 a' = x0 a /\ y0 a' = y0 a /\ z0 a' = z0 a
  /\ box_length a' = box_length a.
Proof.
  cbv zeta. unfold gpu_apply_pbc. cbv zeta.
  destruct (_ <? _); repeat split; reflexivity.
Qed.

Lemma gpu_apply_pbc_flag_off para d b bd t a :
  pbc_flag d para <> 1 ->
  coord d (gpu_apply_pbc (N para) (pbc_x para) (pbc_y para) (pbc_z para) b bd t a)
  = coord d a.
Proof.
  intros Hoff. apply Z.eqb_neq in Hoff.
  unfold gpu_apply_pbc. cbv zeta.
  destruct (_ <? _); [|reflexivity].
  destruct d; simpl in *; rewrite Hoff; reflexivity.
Qed.

(** C10: the wrap never modifies a coordinate along an axis whose flag is
    not set; and, whatever the flags are, it modifies nothing but position
    coordinates: the reference positions, the neighbor list, the box
    lengths and the lengths of the position arrays are unchanged, the
    launch prints nothing, and the periodicity flags, which the kernel
    receives by value, are out of its reach. *)
Theorem apply_pbc_frame para w :
  let a := w_atom w in
  (forall d, pbc_flag d para <> 1 -> coord d (apply_pbc para a) = coord d a)
  /\ (forall d', coord0 d' (apply_pbc para a) = coord0 d' a)
  /\ NN (apply_pbc para a) = NN a
  /\ NL (apply_pbc para a) = NL a
  /\ box_length (apply_pbc para a) = box_length a
  /\ (forall d', length (coord d' (apply_pbc para a)) = length (coord d' a))
  /\ launch_gpu_apply_pbc para w
     = Returned tt (with_atom (log w [CallApplyPbc]) (apply_pbc para a)).
Proof.
  intros a. split; [|repeat split].
  - intros d Hoff. unfold apply_pbc. apply (launch_preserves (coord d)).
    intros b bd t s'. apply gpu_apply_pbc_flag_off. exact Hoff.
  - intros d'. apply apply_pbc_coord0.
  - unfold apply_pbc. apply (launch_preserves NN).
    intros b bd t s'. apply gpu_apply_pbc_frame.
  - unfold apply_pbc. apply (launch_preserves NL).
    intros b bd t s'. apply gpu_apply_pbc_frame.
  - unfold apply_pbc. apply (launch_preserves box_length).
    intros b bd t s'. apply gpu_apply_pbc_frame.
  - intros d'. unfold apply_pbc.
    apply (launch_preserves (fun a => length (coord d' a))).
    intros b bd t s'. unfold gpu_apply_pbc. cbv zeta.
    destruct (_ <? _); [|reflexivity].
    destruct d'; simpl; destruct (_ =? 1); rewrite ?wr_length; reflexivity.
Qed.

Lemma pull_back_all_lookup N0 pbc (l : real) (arr : list real) (j : nat) :
  pull_back_all N0 pbc l arr !! j
  = (fun v => if (Z.of_nat j <? N0) && (pbc =? 1) then pull_back l v else v)
      <$> arr !! j.
Proof. unfold pull_back_all, array_map. apply list_lookup_imap. Qed.

End PeriodicWrapperFrame.

(** ** The choice of a builder *)

Section AlgorithmSelector.
Implicit Types (para : Parameters real) (cpu_box : list real).

Lemma axis_cells_eq pbc (box_d rc0 : real) :
  axis_cells pbc box_d rc0 = (axis_count pbc box_d rc0, axis_too_few pbc box_d rc0).
Proof.
  unfold axis_cells, axis_count, axis_too_few.
  destruct (pbc =? 0); reflexivity.
Qed.

Lemma axis_count_pos pbc (box_d rc0 : real) :
  axis_too_few pbc box_d rc0 = false -> 1 <= axis_count pbc box_d rc0.
Proof.
  unfold axis_count, axis_too_few.
  destruct (pbc =? 0); simpl; [lia|]. intros Hc. apply Z.ltb_ge in Hc. lia.
Qed.

Lemma mul3_small cx cy cz :
  1 <= cx -> 1 <= cy -> 1 <= cz -> cx * cy * cz <= Int.max_signed ->
  Int.mul (Int.mul cx cy) cz = cx * cy * cz.
Proof.
  unfold Int.max_signed. intros Hx Hy Hz Hp. unfold Int.mul.
  assert (Hxy : 1 <= cx * cy <= cx * cy * cz) by nia.
  rewrite (repr_small (cx * cy))
    by (unfold Int.in_range, Int.min_signed, Int.max_signed; lia).
  apply repr_small. unfold Int.in_range, Int.min_signed, Int.max_signed. lia.
Qed.

(** C2, as amended: with the cell count of a periodic axis being
    [floor(box / rc)] converted to [int] ([cell_count]: the floor itself
    when it fits, INT_MIN when it does not) and that of any other axis
    being 1, the selector takes the O(N^2) builder whenever a periodic axis
    has fewer than 3 cells or the product of the three counts is below 50,
    whatever the other parameters; otherwise, in a build without DEBUG and
    when that product fits an [int], it takes the cell builder with those
    three counts. *)
Theorem choose_method_fallback para cpu_box :
  let rc0 := rc (neighbor para) in
  let cx := axis_count (pbc_x para) cpu_box.[0] rc0 in
  let cy := axis_count (pbc_y para) cpu_box.[1] rc0 in
  let cz := axis_count (pbc_z para) cpu_box.[2] rc0 in
  let few := axis_too_few (pbc_x para) cpu_box.[0] rc0
             || axis_too_few (pbc_y para) cpu_box.[1] rc0
             || axis_too_few (pbc_z para) cpu_box.[2] rc0 in
  (few = true \/ cx * cy * cz < NUM_OF_CELLS -> choose_method para cpu_box = UseON2)
  /\ (DEBUG = false -> few = false ->
      NUM_OF_CELLS <= cx * cy * cz <= Int.max_signed ->
      choose_method para cpu_box = UseON1 cx cy cz).
Proof.
  intros rc0 cx cy cz few. unfold choose_method. cbv zeta.
  rewrite !axis_cells_eq. fold rc0. fold cx. fold cy. fold cz. fold few.
  destruct (Bool.bool_dec few true) as [Hfew|Hfew].
  - rewrite Hfew. split.
    + intros _. destruct DEBUG; [reflexivity|].
      destruct (_ <? NUM_OF_CELLS); reflexivity.
    + intros _ Hf. discriminate Hf.
  - apply Bool.not_true_is_false in Hfew. rewrite Hfew.
    subst few. apply Bool.orb_false_elim in Hfew as [Hxy Hz].
    apply Bool.orb_false_elim in Hxy as [Hx Hy].
    apply axis_count_pos in Hx, Hy, Hz. fold cx in Hx. fold cy in Hy. fold cz in Hz.
    unfold NUM_OF_CELLS. split.
    + intros [Hf|Hp]; [discriminate Hf|].
      destruct DEBUG; [reflexivity|].
      rewrite mul3_small by (unfold Int.max_signed; lia).
      rewrite (proj2 (Z.ltb_lt _ _)) by exact Hp. reflexivity.
    + intros -> _ [Hlo Hhi].
      rewrite mul3_small by assumption.
      rewrite (proj2 (Z.ltb_ge _ _)) by exact Hlo. reflexivity.
Qed.

End AlgorithmSelector.

(** * Further properties of the kernels and of the driver *)

(** ** The reduction kernels, one by one *)

Section ReductionKernels.
Implicit Types (s g : list Z).

Lemma simt_add_lookup_ge (a k : nat) s (t : nat) :
  (a <= t)%nat -> simt_add a k s !!! t = s !!! t.
Proof.
  intros Hat. destruct (decide (t < length s)%nat) as [Ht|Ht].
  - rewrite simt_add_lookup by exact Ht. rewrite bool_decide_false by lia. reflexivity.
  - rewrite !list_lookup_total_alt.
    rewrite !(proj2 (lookup_ge_None _ _)); [reflexivity| |];
      rewrite ?simt_add_length; lia.
Qed.

(** X1: [warp_reduce] leaves in lane 0 the sum, modulo 2^32, of the 64
    lanes it starts from; it writes lanes 0 to 31 only and keeps the length
    of the array. *)
Theorem warp_reduce_sums_64_lanes s :
  (64 <= length s)%nat ->
  warp_reduce s !!! 0%nat = Int.repr (sumto (fun t => s !!! t) 64)
  /\ (forall t, (32 <= t)%nat -> warp_reduce s !!! t = s !!! t)
  /\ length (warp_reduce s) = length s.
Proof.
  intros Hlen. unfold warp_reduce. cbv zeta. split; [|split].
  - rewrite simt_add_lookup by (rewrite !simt_add_length; lia).
    rewrite bool_decide_true by lia. unfold Int.add at 1.
    match goal with
    | |- Int.repr (?s5 !!! 0%nat + ?s5 !!! (0 + 1)%nat) = _ =>
        change (Int.repr (sumto (fun t => s5 !!! t) 2)
                = Int.repr (sumto (fun t => s !!! t) 64))
    end.
    rewrite (simt_add_halve 32 2 4) by (rewrite ?simt_add_length; lia).
    rewrite (simt_add_halve 32 4 8) by (rewrite ?simt_add_length; lia).
    rewrite (simt_add_halve 32 8 16) by (rewrite ?simt_add_length; lia).
    rewrite (simt_add_halve 32 16 32) by (rewrite ?simt_add_length; lia).
    rewrite (simt_add_halve 32 32 64) by (rewrite ?simt_add_length; lia).
    reflexivity.
  - intros t Ht. rewrite !simt_add_lookup_ge by exact Ht. reflexivity.
  - rewrite !simt_add_length. reflexivity.
Qed.

(** X2: the four phases of the tree reduction that end in a barrier are
    free of races: whatever the order in which the 1024 threads of the block
    execute each of them, the block ends with the value [block_reduce]
    gives. *)
Theorem block_reduce_any_thread_order s (o1 o2 o3 o4 : list nat) :
  length s = 1024%nat ->
  o1 ≡ₚ seq 0 1024 -> o2 ≡ₚ seq 0 1024 -> o3 ≡ₚ seq 0 1024 -> o4 ≡ₚ seq 0 1024 ->
  (warp_reduce
     (barrier_phase 64 64 o4
        (barrier_phase 128 128 o3
           (barrier_phase 256 256 o2
              (barrier_phase 512 512 o1 s))))).[0]
  = block_reduce s.
Proof.
  intros Hlen H1 H2 H3 H4. unfold block_reduce. cbv zeta.
  rewrite (barrier_phase_any_order 512 512 o1 s) by (rewrite ?Hlen; done).
  rewrite (barrier_phase_any_order 256 256 o2)
    by (rewrite ?simt_add_length, ?Hlen; done).
  rewrite (barrier_phase_any_order 128 128 o3)
    by (rewrite ?simt_add_length, ?Hlen; done).
  rewrite (barrier_phase_any_order 64 64 o4)
    by (rewrite ?simt_add_length, ?Hlen; done).
  reflexivity.
Qed.

Lemma filter_seqZ_sum (P : Z -> Prop) `{!forall n, Decision (P n)} (a : Z) (k : nat) :
  Z.of_nat (length (filter P (seqZ a (Z.of_nat k))))
  = sumto (fun t => if decide (P (a + Z.of_nat t)) then 1 else 0) k.
Proof.
  induction k as [|k IH]; [reflexivity|].
  rewrite seqZ_S, list.filter_app, length_app, Nat2Z.inj_add, IH.
  simpl sumto. f_equal. rewrite filter_cons, filter_nil.
  destruct (decide (P (a + Z.of_nat k))); reflexivity.
Qed.

(** X3: one block of [check_atom_distance_1] stores in [g_sum[bid]] the
    number of particles of its own 1024 indices that are below [N] and moved
    beyond the threshold; the partial sum lies between 0 and 1024. *)
Theorem check_atom_distance_1_counts_its_block
    N0 (d2 : real) (x_old y_old z_old x_new y_new z_new : list real) bid :
  0 <= bid -> bid * 1024 + 1023 <= Int.max_signed ->
  check_atom_distance_1 N0 d2 x_old y_old z_old x_new y_new z_new bid 1024
  = Z.of_nat (length
      (filter (fun n => n < N0
                        /\ moved d2 x_old y_old z_old x_new y_new z_new n = true)
              (seqZ (bid * 1024) 1024)))
  /\ 0 <= check_atom_distance_1 N0 d2 x_old y_old z_old x_new y_new z_new bid 1024
       <= 1024.
Proof.
  intros Hbid Hmax.
  assert (Heq : check_atom_distance_1 N0 d2 x_old y_old z_old x_new y_new z_new bid 1024
    = Z.of_nat (length
        (filter (fun n => n < N0
                          /\ moved d2 x_old y_old z_old x_new y_new z_new n = true)
                (seqZ (bid * 1024) 1024)))).
  { rewrite check_atom_distance_1_sum.
    change 1024 with (Z.of_nat 1024) at 3. rewrite filter_seqZ_sum.
    rewrite (sumto_ext _ (fun t =>
      if decide (bid * 1024 + Z.of_nat t < N0
                 /\ moved d2 x_old y_old z_old x_new y_new z_new
                      (bid * 1024 + Z.of_nat t) = true)
      then 1 else 0)).
    - apply repr_small.
      pose proof (sumto_bounds (fun t =>
        if decide (bid * 1024 + Z.of_nat t < N0
                   /\ moved d2 x_old y_old z_old x_new y_new z_new
                        (bid * 1024 + Z.of_nat t) = true)
        then 1 else 0) 1024 0 1) as Hb.
      unfold Int.in_range, Int.min_signed, Int.max_signed.
      assert (Hf : forall i, (i < 1024)%nat ->
        0 <= (if decide (bid * 1024 + Z.of_nat i < N0
                         /\ moved d2 x_old y_old z_old x_new y_new z_new
                              (bid * 1024 + Z.of_nat i) = true)
              then 1 else 0) <= 1)
        by (intros; destruct (decide _); lia).
      specialize (Hb Hf). lia.
    - intros t Ht. unfold check_atom_distance_1_flag. cbv zeta.
      rewrite repr_small
        by (unfold Int.in_range, Int.min_signed, Int.max_signed in *; lia).
      destruct (Z.ltb_spec (bid * 1024 + Z.of_nat t) N0) as [Hlt|Hge]; simpl.
      + destruct (moved _ _ _ _ _ _ _ _) eqn:Hm.
        * rewrite decide_True; [reflexivity|split; [exact Hlt|reflexivity]].
        * rewrite decide_False; [reflexivity|intros [_ Hc]; discriminate Hc].
      + rewrite decide_False; [reflexivity|intros [Hc _]; lia]. }
  split; [exact Heq|]. rewrite Heq.
  pose proof (length_filter
    (fun n => n < N0 /\ moved d2 x_old y_old z_old x_new y_new z_new n = true)
    (seqZ (bid * 1024) 1024)) as Hle.
  rewrite length_seqZ in Hle. lia.
Qed.

Lemma sumto_foldr g :
  sumto (fun n => g !!! n) (length g) = foldr Z.add 0 g.
Proof.
  induction g as [|v g IH]; [reflexivity|].
  change (length (v :: g)) with (1 + length g)%nat.
  rewrite sumto_app. simpl. rewrite <- IH. reflexivity.
Qed.

(** X4: [check_atom_distance_2] adds up all [M] partial sums, however many
    patches of 1024 they fill, modulo 2^32; when the true sum fits an [int]
    it is the value stored in [g_sum_o[0]]. *)
Theorem check_atom_distance_2_sums_every_patch (M : Z) g :
  0 <= M <= Int.max_signed ->
  length g = Z.to_nat M ->
  check_atom_distance_2 M g 1024 = Int.repr (foldr Z.add 0 g)
  /\ (Int.in_range (foldr Z.add 0 g) ->
      check_atom_distance_2 M g 1024 = foldr Z.add 0 g).
Proof.
  intros [HM0 HM] Hlen.
  assert (Heq : check_atom_distance_2 M g 1024 = Int.repr (foldr Z.add 0 g)).
  { rewrite check_atom_distance_2_sum by exact HM.
    rewrite <- Hlen, sumto_foldr. reflexivity. }
  split; [exact Heq|]. intros Hr. rewrite Heq. apply repr_small. exact Hr.
Qed.

(** X5: the value [check_atom_distance] copies back lies between 0 and
    [N]: it is never negative, so "nonzero" and "> 0" (the comment above the
    function) are the same test, and it is 0 when there is no particle. *)
Theorem check_atom_distance_between_0_and_N (d2 : real) N0 (atom : Atom real) :
  N0 <= Int.max_signed ->
  0 <= check_atom_distance_d2 d2 N0 atom <= Z.max 0 N0
  /\ (N0 <= 0 -> check_atom_distance_d2 d2 N0 atom = 0).
Proof.
  intros HN. rewrite check_atom_distance_d2_count by exact HN.
  unfold moved_particles.
  pose proof (length_filter
    (fun n => Is_true (moved d2 (x0 atom) (y0 atom) (z0 atom)
                         (x atom) (y atom) (z atom) n)) (seqZ 0 N0)) as Hle.
  rewrite length_seqZ in Hle. split; [lia|].
  intros H0. rewrite seqZ_nil by exact H0. reflexivity.
Qed.

End ReductionKernels.

(** ** The two kernels the driver launches on the positions *)

Section PositionKernels.
Implicit Types (para : Parameters real) (a : Atom real).

Lemma gpu_update_xyz0_frame N0 b bd t a :
  let a' := gpu_update_xyz0 N0 b bd t a in
  NN a' = NN a /\ NL a' = NL a /\ box_length a' = box_length a
  /\ x a' = x a /\ y a' = y a /\ z a' = z a.
Proof.
  cbv zeta. unfold gpu_update_xyz0. cbv zeta.
  destruct (_ <? _); repeat split; reflexivity.
Qed.

Lemma update_xyz0_keeps para a :
  NN (update_xyz0 para a) = NN a
  /\ NL (update_xyz0 para a) = NL a
  /\ box_length (update_xyz0 para a) = box_length a
  /\ (forall d, coord d (update_xyz0 para a) = coord d a).
Proof.
  unfold update_xyz0. repeat split.
  - apply (launch_preserves NN). intros. apply gpu_update_xyz0_frame.
  - apply (launch_preserves NL). intros. apply gpu_update_xyz0_frame.
  - apply (launch_preserves box_length). intros. apply gpu_update_xyz0_frame.
  - intros d. apply (launch_preserves (coord d)). intros b bd t s'.
    destruct d; apply gpu_update_xyz0_frame.
Qed.

Lemma apply_pbc_keeps para a :
  NN (apply_pbc para a) = NN a
  /\ NL (apply_pbc para a) = NL a
  /\ box_length (apply_pbc para a) = box_length a.
Proof.
  unfold apply_pbc. repeat split.
  - apply (launch_preserves NN). intros. apply gpu_apply_pbc_frame.
  - apply (launch_preserves NL). intros. apply gpu_apply_pbc_frame.
  - apply (launch_preserves box_length). intros. apply gpu_apply_pbc_frame.
Qed.

Lemma apply_pbc_flag_off para a d :
  pbc_flag d para <> 1 -> coord d (apply_pbc para a) = coord d a.
Proof.
  intros Hoff. unfold apply_pbc. apply (launch_preserves (coord d)).
  intros b bd t s'. apply gpu_apply_pbc_flag_off. exact Hoff.
Qed.

Lemma array_map_off {A} (c : Z -> bool) (g : Z -> A -> A) (arr : list A) :
  (forall j : nat, c (Z.of_nat j) = false) -> array_map c g arr = arr.
Proof.
  intros Hc. unfold array_map. apply list_eq. intros j.
  rewrite list_lookup_imap, Hc. destruct (arr !! j); reflexivity.
Qed.

Lemma snapshot_lookup N0 (src dst : list real) (j : nat) :
  snapshot N0 src dst !! j
  = (fun v => if Z.of_nat j <? N0 then src !!! j else v) <$> dst !! j.
Proof.
  unfold snapshot, array_map. rewrite list_lookup_imap.
  unfold rd. rewrite Nat2Z.id. reflexivity.
Qed.

Lemma snapshot_idem N0 (src dst : list real) :
  snapshot N0 src (snapshot N0 src dst) = snapshot N0 src dst.
Proof.
  apply list_eq. intros j. rewrite !snapshot_lookup.
  destruct (dst !! j); simpl; [|reflexivity].
  destruct (_ <? _); reflexivity.
Qed.

(** X6: the snapshot [gpu_update_xyz0], launched as the driver launches
    it, overwrites the reference position of the particles [0 .. N-1] with
    their position and nothing else: entries from [N] on, the positions, the
    neighbor list and the box are unchanged; taking it twice is taking it
    once. *)
Theorem update_xyz0_copies_first_N para a :
  N para <= Int.max_signed ->
  (forall d (j : nat),
     coord0 d (update_xyz0 para a) !! j
     = (fun v => if Z.of_nat j <? N para then coord d a !!! j else v)
         <$> coord0 d a !! j)
  /\ (forall d, coord d (update_xyz0 para a) = coord d a)
  /\ NN (update_xyz0 para a) = NN a
  /\ NL (update_xyz0 para a) = NL a
  /\ box_length (update_xyz0 para a) = box_length a
  /\ update_xyz0 para (update_xyz0 para a) = update_xyz0 para a.
Proof.
  intros HN. pose proof (update_xyz0_keeps para a) as (HNN & HNL & Hbox & Hc).
  split; [|split; [exact Hc|split; [exact HNN|split; [exact HNL|split; [exact Hbox|]]]]].
  - intros d j. rewrite update_xyz0_spec by exact HN.
    destruct d; apply snapshot_lookup.
  - rewrite (update_xyz0_spec para (update_xyz0 para a)) by exact HN.
    rewrite (update_xyz0_spec para a) by exact HN.
    unfold set_xyz0. cbn [NN NL x y z x0 y0 z0 box_length].
    rewrite !snapshot_idem. reflexivity.
Qed.

(** X7: the wrap [gpu_apply_pbc], launched as the driver launches it,
    touches the coordinates of the particles [0 .. N-1] only, and moves a
    coordinate by one box length at most: each entry is what it was, or that
    plus the box length, or that minus the box length. *)
Theorem apply_pbc_moves_by_one_box_length para a d (j : nat) v :
  N para <= Int.max_signed ->
  coord d a !! j = Some v ->
  exists v',
    coord d (apply_pbc para a) !! j = Some v'
    /\ (v' = v \/ v' = r_add v (box_len d a) \/ v' = r_sub v (box_len d a))
    /\ (N para <= Z.of_nat j -> v' = v)
    /\ (Z.of_nat j < N para -> pbc_flag d para = 1 -> v' = pull_back (box_len d a) v).
Proof.
  intros HN Hv. rewrite apply_pbc_coord by exact HN.
  rewrite pull_back_all_lookup, Hv. simpl.
  eexists. split; [reflexivity|]. split; [|split].
  - destruct (_ && _); [|left; reflexivity].
    unfold pull_back. destruct (r_ltb v r_zero); [right; left; reflexivity|].
    destruct (r_gtb v (box_len d a)); [right; right; reflexivity|left; reflexivity].
  - intros Hj. rewrite (proj2 (Z.ltb_ge _ _)) by exact Hj. reflexivity.
  - intros Hj Hflag. rewrite (proj2 (Z.ltb_lt _ _)) by exact Hj.
    rewrite Hflag. reflexivity.
Qed.

(** X17: the launch configurations [(N - 1) / BLOCK_SIZE + 1] blocks of
    [BLOCK_SIZE] threads (driver) and [(N - 1) / 1024 + 1] blocks of 1024
    threads (displacement check) give every particle a thread, leave less
    than one block of idle threads, and keep the largest thread index
    inside an [int]. *)
Theorem launch_grids_cover_every_particle N0 :
  1 <= N0 <= Int.max_signed ->
  let grid := grid_of N0 in
  let M := Int.add (Int.div (Int.sub N0 1) 1024) 1 in
  (N0 <= grid * BLOCK_SIZE < N0 + BLOCK_SIZE
   /\ grid * BLOCK_SIZE - 1 <= Int.max_signed)
  /\ (N0 <= M * 1024 < N0 + 1024 /\ M * 1024 - 1 <= Int.max_signed).
Proof.
  intros HN. cbv zeta. split.
  - pose proof (grid_of_range N0) as Hr. revert Hr.
    unfold grid_of, BLOCK_SIZE, Int.add, Int.div, Int.sub, Int.max_signed in *.
    rewrite (repr_small (N0 - 1))
      by (unfold Int.in_range, Int.min_signed, Int.max_signed; lia).
    assert (Hq : 0 <= Z.quot (N0 - 1) 128 < 2 ^ 24
                 /\ N0 <= 128 * (Z.quot (N0 - 1) 128 + 1) < N0 + 128).
    { Z.to_euclidean_division_equations. lia. }
    rewrite (repr_small (Z.quot (N0 - 1) 128))
      by (unfold Int.in_range, Int.min_signed, Int.max_signed; lia).
    rewrite repr_small
      by (unfold Int.in_range, Int.min_signed, Int.max_signed; lia).
    lia.
  - pose proof (blocks_cover N0 HN) as Hc. pose proof (blocks_range N0) as Hr.
    unfold Int.max_signed in *. lia.
Qed.

End PositionKernels.

(** ** The selector and the driver *)

Section DriverProperties.
Implicit Types (para : Parameters real) (w : World real) (a : Atom real).

Lemma to_int_in_range v : Int.in_range (to_int v).
Proof.
  unfold to_int, Int.in_range.
  destruct v as [n|]; [|unfold Int.min_signed, Int.max_signed; lia].
  destruct (Z.leb_spec Int.min_signed n), (Z.leb_spec n Int.max_signed);
    cbn [andb]; unfold Int.min_signed, Int.max_signed in *; lia.
Qed.

Lemma axis_count_cases pbc (box_d rc0 : real) :
  Int.in_range (axis_count pbc box_d rc0)
  /\ (pbc = 0 -> axis_count pbc box_d rc0 = 1)
  /\ (pbc <> 0 -> axis_too_few pbc box_d rc0 = false -> 3 <= axis_count pbc box_d rc0).
Proof.
  unfold axis_count, axis_too_few, cell_count.
  destruct (Z.eqb_spec pbc 0) as [->|Hne]; simpl.
  - split; [unfold Int.in_range, Int.min_signed, Int.max_signed; lia|].
    split; [reflexivity|]. intros Hc. elim Hc. reflexivity.
  - split; [apply to_int_in_range|]. split; [intros Hc; contradiction|].
    intros _ Hf. apply Z.ltb_ge in Hf. exact Hf.
Qed.

(** X8: whenever the selector takes the cell builder, the build is not a
    DEBUG build, the three counts it hands over are the ones it computed,
    each periodic axis has at least 3 cells and each other axis exactly 1,
    at least one axis is periodic, and the [int] product of the counts is at
    least 50. *)
Theorem choose_method_ON1_is_sound para (cpu_box : list real) cx cy cz :
  choose_method para cpu_box = UseON1 cx cy cz ->
  DEBUG = false
  /\ cx = axis_count (pbc_x para) cpu_box.[0] (rc (neighbor para))
  /\ cy = axis_count (pbc_y para) cpu_box.[1] (rc (neighbor para))
  /\ cz = axis_count (pbc_z para) cpu_box.[2] (rc (neighbor para))
  /\ (if pbc_x para =? 0 then cx = 1 else 3 <= cx <= Int.max_signed)
  /\ (if pbc_y para =? 0 then cy = 1 else 3 <= cy <= Int.max_signed)
  /\ (if pbc_z para =? 0 then cz = 1 else 3 <= cz <= Int.max_signed)
  /\ ~ (pbc_x para = 0 /\ pbc_y para = 0 /\ pbc_z para = 0)
  /\ NUM_OF_CELLS <= Int.mul (Int.mul cx cy) cz.
Proof.
  unfold choose_method. cbv zeta. rewrite !axis_cells_eq.
  destruct DEBUG; [discriminate|].
  set (rc0 := rc (neighbor para)).
  pose proof (axis_count_cases (pbc_x para) cpu_box.[0] rc0) as (Hrx & Hx0 & Hx3).
  pose proof (axis_count_cases (pbc_y para) cpu_box.[1] rc0) as (Hry & Hy0 & Hy3).
  pose proof (axis_count_cases (pbc_z para) cpu_box.[2] rc0) as (Hrz & Hz0 & Hz3).
  destruct (Z.ltb_spec
    (Int.mul (Int.mul (axis_count (pbc_x para) cpu_box.[0] rc0)
                      (axis_count (pbc_y para) cpu_box.[1] rc0))
             (axis_count (pbc_z para) cpu_box.[2] rc0)) NUM_OF_CELLS)
    as [Hlt|Hge]; [discriminate|].
  destruct (axis_too_few (pbc_x para) cpu_box.[0] rc0) eqn:Hfx; [discriminate|].
  destruct (axis_too_few (pbc_y para) cpu_box.[1] rc0) eqn:Hfy; [discriminate|].
  destruct (axis_too_few (pbc_z para) cpu_box.[2] rc0) eqn:Hfz; [discriminate|].
  simpl. intros Heq. injection Heq as <- <- <-.
  unfold Int.in_range in Hrx, Hry, Hrz.
  split; [reflexivity|]. split; [reflexivity|]. split; [reflexivity|].
  split; [reflexivity|].
  split; [destruct (Z.eqb_spec (pbc_x para) 0) as [E|E];
          [exact (Hx0 E)|split; [exact (Hx3 E eq_refl)|lia]]|].
  split; [destruct (Z.eqb_spec (pbc_y para) 0) as [E|E];
          [exact (Hy0 E)|split; [exact (Hy3 E eq_refl)|lia]]|].
  split; [destruct (Z.eqb_spec (pbc_z para) 0) as [E|E];
          [exact (Hz0 E)|split; [exact (Hz3 E eq_refl)|lia]]|].
  split; [|exact Hge].
  intros (Hx & Hy & Hz). revert Hge.
  rewrite (Hx0 Hx), (Hy0 Hy), (Hz0 Hz). unfold NUM_OF_CELLS. vm_compute.
  intros Hc. apply Hc. reflexivity.
Qed.

Lemma overflowing_nil para (cpu_NN : list Z) :
  overflowing para cpu_NN = [] ->
  forall n, 0 <= n < N para -> cpu_NN.[n] <= MN (neighbor para).
Proof.
  intros Hnil n Hn.
  destruct (Z_le_gt_dec cpu_NN.[n] (MN (neighbor para))) as [Hle|Hgt]; [exact Hle|].
  assert (Hin : n ∈ overflowing para cpu_NN).
  { unfold overflowing. apply list_elem_of_filter. split; [lia|].
    apply elem_of_seqZ. lia. }
  rewrite Hnil in Hin. inversion Hin.
Qed.

Lemma overflowing_cons para (cpu_NN : list Z) n bad :
  overflowing para cpu_NN = n :: bad ->
  0 <= n < N para /\ MN (neighbor para) < cpu_NN.[n].
Proof.
  intros Hbad.
  assert (Hin : n ∈ overflowing para cpu_NN) by (rewrite Hbad; left).
  unfold overflowing in Hin. apply list_elem_of_filter in Hin as [Hgt Hin].
  apply elem_of_seqZ in Hin. split; [lia|exact Hgt].
Qed.

(** The atom a returning rebuild ends with. *)
Lemma rebuild_returned (steady : bool) para w w' :
  rebuild steady para w = Returned tt w' ->
  let m := choose_method para (box_length (w_atom w)) in
  let a1 := set_list (w_atom w) (run_builder m para (w_atom w)) in
  overflowing para (NN a1) = []
  /\ w' = with_atom
            (log w ([builder_call m; CallCheckBound]
                      ++ (if steady then [CallApplyPbc] else [])
                      ++ [CallUpdateXyz0]))
            (update_xyz0 para (if steady then apply_pbc para a1 else a1)).
Proof.
  unfold rebuild. cbv zeta.
  destruct (overflowing para _) as [|n bad]; [|discriminate].
  intros Heq. injection Heq as <-. split; reflexivity.
Qed.

(** The process an exiting rebuild ends with. *)
Lemma rebuild_exited (steady : bool) para w st w' :
  rebuild steady para w = Exited st w' ->
  let m := choose_method para (box_length (w_atom w)) in
  let a1 := set_list (w_atom w) (run_builder m para (w_atom w)) in
  exists n bad,
    overflowing para (NN a1) = n :: bad
    /\ st = 1
    /\ w' = print_all (with_atom (log w [builder_call m; CallCheckBound]) a1)
              ((fun n => check_bound_line n (NN a1).[n] (MN (neighbor para)))
                 <$> (n :: bad)).
Proof.
  unfold rebuild. cbv zeta.
  destruct (overflowing para _) as [|n bad]; [discriminate|].
  intros Heq. injection Heq as <- <-. exists n, bad. repeat split; reflexivity.
Qed.

(** A call of the driver rebuilds when it is the first call or the
    displacement check is nonzero. *)
Lemma driver_rebuilds para is_first w :
  is_first = 1
  \/ check_atom_distance_d2 (r_mul r_half r_half) (N para) (w_atom w) <> 0 ->
  exists (steady : bool) w0,
    find_neighbor_driver para is_first w = rebuild steady para w0
    /\ w_atom w0 = w_atom w /\ w_stdout w0 = w_stdout w
    /\ (steady = false <-> is_first = 1).
Proof.
  intros Hre. rewrite driver_unfold.
  destruct (Z.eqb_spec is_first 1) as [H1|H1].
  - exists false, w.
    split; [reflexivity|]. split; [reflexivity|]. split; [reflexivity|].
    split; [intros _; exact H1|reflexivity].
  - destruct Hre as [Hre|Hre]; [contradiction|].
    rewrite (proj2 (Z.eqb_neq _ _)) by exact Hre.
    exists true, (log w [CallCheckDistance]).
    split; [reflexivity|]. split; [reflexivity|]. split; [reflexivity|].
    split; [intros Hc; discriminate Hc|intros Hc; contradiction].
Qed.

(** X9: capacity invariant.  When a rebuilding call of the driver returns,
    the neighbor count of every particle [0 .. N-1] is at most [MN]. *)
Theorem driver_returns_within_capacity para is_first w w' :
  is_first = 1
  \/ check_atom_distance_d2 (r_mul r_half r_half) (N para) (w_atom w) <> 0 ->
  find_neighbor_driver para is_first w = Returned tt w' ->
  forall n, 0 <= n < N para -> (NN (w_atom w')).[n] <= MN (neighbor para).
Proof.
  intros Hre Hret.
  destruct (driver_rebuilds para is_first w Hre) as (steady & w0 & Hd & Ha & _).
  rewrite Hd in Hret. apply rebuild_returned in Hret as [Hnil ->].
  cbn [w_atom with_atom].
  rewrite (proj1 (update_xyz0_keeps para _)).
  destruct steady; [rewrite (proj1 (apply_pbc_keeps para _))|];
    apply overflowing_nil; exact Hnil.
Qed.

(** X10: the driver ends the process only through [check_bound]: the
    status is 1, some particle [n < N] has more than [MN] neighbors in the
    list just built, at least one line was printed, and neither the wrap
    nor the snapshot ran, so positions, reference positions and box are the
    ones the call received. *)
Theorem driver_exit_is_capacity_overflow para is_first w st w' :
  find_neighbor_driver para is_first w = Exited st w' ->
  st = 1
  /\ (exists n, 0 <= n < N para /\ MN (neighbor para) < (NN (w_atom w')).[n])
  /\ (forall d, coord d (w_atom w') = coord d (w_atom w)
                /\ coord0 d (w_atom w') = coord0 d (w_atom w))
  /\ box_length (w_atom w') = box_length (w_atom w)
  /\ (length (w_stdout w) < length (w_stdout w'))%nat
  /\ list.last (w_calls w') = Some CallCheckBound.
Proof.
  intros Hex.
  assert (Hre : is_first = 1
    \/ check_atom_distance_d2 (r_mul r_half r_half) (N para) (w_atom w) <> 0).
  { rewrite driver_unfold in Hex.
    destruct (Z.eqb_spec is_first 1); [left; assumption|right].
    intros Hz. rewrite Hz in Hex. discriminate Hex. }
  destruct (driver_rebuilds para is_first w Hre) as (steady & w0 & Hd & Ha & Hs & _).
  rewrite Hd in Hex. apply rebuild_exited in Hex as (n & bad & Hbad & -> & ->).
  apply overflowing_cons in Hbad as [Hn Hgt].
  split; [reflexivity|]. split; [exists n; split; [exact Hn|exact Hgt]|].
  cbn [w_atom w_stdout w_calls print_all with_atom log]. rewrite Ha, Hs.
  split; [intros d; destruct d; split; reflexivity|].
  split; [reflexivity|].
  split; [rewrite length_app, length_fmap; simpl; lia|].
  match goal with
  | |- list.last (?l ++ [?c; CallCheckBound]) = _ =>
      change (l ++ [c; CallCheckBound]) with (l ++ [c] ++ [CallCheckBound]);
      rewrite app_assoc; apply last_snoc
  end.
Qed.

(** X11: what the driver never touches.  However a call ends, the box
    lengths and the lengths of the position arrays are unchanged, the
    coordinates along an axis whose flag is not 1 are unchanged, a
    bootstrap call changes no coordinate at all, and what was printed and
    the log of callees only grow. *)
Theorem driver_frame para is_first w :
  let w' := outcome_world (find_neighbor_driver para is_first w) in
  box_length (w_atom w') = box_length (w_atom w)
  /\ (forall d, length (coord d (w_atom w')) = length (coord d (w_atom w)))
  /\ (forall d, pbc_flag d para <> 1 \/ is_first = 1 ->
        coord d (w_atom w') = coord d (w_atom w))
  /\ w_stdout w `prefix_of` w_stdout w'
  /\ w_calls w `prefix_of` w_calls w'.
Proof.
  cbv zeta. rewrite driver_unfold.
  assert (Hreb : forall (steady : bool) w0,
    w_atom w0 = w_atom w -> w_stdout w0 = w_stdout w ->
    w_calls w `prefix_of` w_calls w0 ->
    (steady = false <-> is_first = 1) ->
    let w' := outcome_world (rebuild steady para w0) in
    box_length (w_atom w') = box_length (w_atom w)
    /\ (forall d, length (coord d (w_atom w')) = length (coord d (w_atom w)))
    /\ (forall d, pbc_flag d para <> 1 \/ is_first = 1 ->
          coord d (w_atom w') = coord d (w_atom w))
    /\ w_stdout w `prefix_of` w_stdout w'
    /\ w_calls w `prefix_of` w_calls w').
  { intros steady w0 Ha Hs Hc Hst. cbv zeta. unfold rebuild. cbv zeta.
    destruct (overflowing para _) as [|n bad];
      cbn [outcome_world w_atom w_stdout w_calls print_all with_atom log];
      rewrite ?Ha, ?Hs.
    - pose proof (update_xyz0_keeps para
        (if steady then apply_pbc para
           (set_list (w_atom w)
              (run_builder (choose_method para (box_length (w_atom w))) para (w_atom w)))
         else set_list (w_atom w)
              (run_builder (choose_method para (box_length (w_atom w))) para (w_atom w))))
        as (_ & _ & Hbox & Hco).
      split; [|split; [|split; [|split]]].
      + rewrite Hbox. destruct steady; [rewrite (proj2 (proj2 (apply_pbc_keeps _ _)))|];
          reflexivity.
      + intros d. rewrite Hco. destruct steady; [|destruct d; reflexivity].
        unfold apply_pbc.
        rewrite (launch_preserves (fun a => length (coord d a))).
        * destruct d; reflexivity.
        * intros b bd t s'. unfold gpu_apply_pbc. cbv zeta.
          destruct (_ <? _); [|reflexivity].
          destruct d; simpl; destruct (_ =? 1); rewrite ?wr_length; reflexivity.
      + intros d Hd. rewrite Hco. destruct steady.
        * destruct Hd as [Hd|Hd].
          -- rewrite apply_pbc_flag_off by exact Hd. destruct d; reflexivity.
          -- apply Hst in Hd. discriminate Hd.
        * destruct d; reflexivity.
      + reflexivity.
      + etransitivity; [exact Hc|]. apply prefix_app_r. reflexivity.
    - split; [reflexivity|]. split; [intros d; destruct d; reflexivity|].
      split; [intros d _; destruct d; reflexivity|].
      split; [apply prefix_app_r; reflexivity|].
      etransitivity; [exact Hc|]. apply prefix_app_r. reflexivity. }
  destruct (Z.eqb_spec is_first 1) as [H1|H1].
  - apply Hreb; try reflexivity. split; [intros _; exact H1|reflexivity].
  - destruct (_ =? 0).
    + cbn [outcome_world w_atom w_stdout w_calls log].
      split; [reflexivity|]. split; [reflexivity|]. split; [reflexivity|].
      split; [reflexivity|]. apply prefix_app_r. reflexivity.
    + apply Hreb; try reflexivity.
      * apply prefix_app_r. reflexivity.
      * split; [discriminate|contradiction].
Qed.

(** X12: a system without particles ([N = 0]).  The displacement check
    is 0, so a steady-state call returns at once; the capacity check
    passes without a line printed; and the wrap and the snapshot change
    nothing. *)
Theorem empty_system_is_left_alone para is_first w :
  N para = 0 ->
  is_first <> 1 ->
  find_neighbor_driver para is_first w = Returned tt (log w [CallCheckDistance])
  /\ check_bound para w = Returned tt (log w [CallCheckBound])
  /\ apply_pbc para (w_atom w) = w_atom w
  /\ update_xyz0 para (w_atom w) = w_atom w.
Proof.
  intros HN0 Hfirst.
  assert (HN : N para <= 0) by lia.
  assert (HN' : N para <= Int.max_signed) by (unfold Int.max_signed; lia).
  split; [|split; [|split]].
  - rewrite driver_unfold, (proj2 (Z.eqb_neq _ _)) by exact Hfirst.
    rewrite check_atom_distance_d2_count by exact HN'.
    unfold moved_particles. rewrite seqZ_nil by exact HN. reflexivity.
  - rewrite check_bound_spec. unfold overflowing.
    rewrite seqZ_nil by exact HN. reflexivity.
  - rewrite apply_pbc_spec by exact HN'. unfold pull_back_all.
    rewrite !array_map_off
      by (intros j; rewrite (proj2 (Z.ltb_ge _ _)) by lia; reflexivity).
    destruct (w_atom w); reflexivity.
  - rewrite update_xyz0_spec by exact HN'. unfold snapshot.
    rewrite !array_map_off
      by (intros j; rewrite (proj2 (Z.ltb_ge _ _)) by lia; reflexivity).
    destruct (w_atom w); reflexivity.
Qed.

End DriverProperties.

(** ** Thread schedules *)

Section Schedules.
Implicit Types (para : Parameters real) (a : Atom real).

Lemma launch_as_schedule {S} (grid block : Z) (kernel : Z -> Z -> Z -> S -> S) (s : S) :
  launch grid block kernel s
  = launch_scheduled (grid_threads grid block) block kernel s.
Proof.
  unfold launch, launch_scheduled, grid_threads.
  generalize (seqZ 0 grid). intros bs. revert s.
  induction bs as [|b bs IH]; intros s; [reflexivity|].
  rewrite bind_cons, foldl_app, foldl_fmap. simpl. apply IH.
Qed.

Lemma foldl_permutation {A B} (f : A -> B -> A) (l1 l2 : list B) :
  (forall (s : A) u v, f (f s u) v = f (f s v) u) ->
  l1 ≡ₚ l2 -> forall s : A, foldl f s l1 = foldl f s l2.
Proof.
  intros Hcomm Hperm.
  induction Hperm as [|u l1 l2 _ IH|u v l|l1 l2 l3 _ IH1 _ IH2]; intros s; simpl.
  - reflexivity.
  - apply IH.
  - rewrite Hcomm. reflexivity.
  - rewrite IH1. apply IH2.
Qed.

Lemma array_step_comm {A} `{Inhabited A} (c : Z -> bool) (g : Z -> A -> A)
    (arr : list A) (i1 i2 : Z) :
  array_step c g (array_step c g arr i1) i2
  = array_step c g (array_step c g arr i2) i1.
Proof.
  unfold array_step. cbv zeta.
  set (n1 := Int.repr i1). set (n2 := Int.repr i2).
  destruct (decide (n1 = n2)) as [->|Hne]; [reflexivity|].
  destruct (c n1) eqn:H1, (c n2) eqn:H2; try reflexivity.
  unfold wr, rd.
  destruct (Z.leb_spec 0 n1) as [Hp1|Hn1], (Z.leb_spec 0 n2) as [Hp2|Hn2];
    try reflexivity.
  assert (Hnat : Z.to_nat n1 <> Z.to_nat n2) by lia.
  rewrite !list_lookup_total_insert_ne by congruence.
  apply list_insert_insert_ne. congruence.
Qed.

Lemma gpu_update_xyz0_comm N0 bd b1 t1 b2 t2 a :
  gpu_update_xyz0 N0 b2 bd t2 (gpu_update_xyz0 N0 b1 bd t1 a)
  = gpu_update_xyz0 N0 b1 bd t1 (gpu_update_xyz0 N0 b2 bd t2 a).
Proof.
  change (gpu_update_xyz0 N0 0 0 (b2 * bd + t2) (gpu_update_xyz0 N0 0 0 (b1 * bd + t1) a)
          = gpu_update_xyz0 N0 0 0 (b1 * bd + t1) (gpu_update_xyz0 N0 0 0 (b2 * bd + t2) a)).
  rewrite !gpu_update_xyz0_step. unfold set_xyz0.
  cbn [NN NL x y z x0 y0 z0 box_length].
  rewrite (array_step_comm _ _ (x0 a)), (array_step_comm _ _ (y0 a)),
    (array_step_comm _ _ (z0 a)).
  reflexivity.
Qed.

Lemma gpu_apply_pbc_comm N0 px py pz bd b1 t1 b2 t2 a :
  gpu_apply_pbc N0 px py pz b2 bd t2 (gpu_apply_pbc N0 px py pz b1 bd t1 a)
  = gpu_apply_pbc N0 px py pz b1 bd t1 (gpu_apply_pbc N0 px py pz b2 bd t2 a).
Proof.
  change (gpu_apply_pbc N0 px py pz 0 0 (b2 * bd + t2)
            (gpu_apply_pbc N0 px py pz 0 0 (b1 * bd + t1) a)
          = gpu_apply_pbc N0 px py pz 0 0 (b1 * bd + t1)
              (gpu_apply_pbc N0 px py pz 0 0 (b2 * bd + t2) a)).
  rewrite !gpu_apply_pbc_step. unfold set_xyz.
  cbn [NN NL x y z x0 y0 z0 box_length].
  rewrite (array_step_comm _ _ (x a)), (array_step_comm _ _ (y a)),
    (array_step_comm _ _ (z a)).
  reflexivity.
Qed.

(** X13: the snapshot kernel does not depend on the order in which its
    threads run: any schedule of the threads of the driver's launch leaves
    the atoms the block-by-block launch leaves. *)
Theorem update_xyz0_any_schedule para a (schedule : list (Z * Z)) :
  schedule ≡ₚ grid_threads (grid_of (N para)) BLOCK_SIZE ->
  launch_scheduled schedule BLOCK_SIZE (gpu_update_xyz0 (N para)) a
  = update_xyz0 para a.
Proof.
  intros Hperm. unfold update_xyz0. rewrite launch_as_schedule.
  unfold launch_scheduled. apply foldl_permutation; [|exact Hperm].
  intros a0 u v. apply gpu_update_xyz0_comm.
Qed.

(** X14: the wrap kernel does not depend on the order in which its
    threads run: any schedule of the threads of the driver's launch leaves
    the atoms the block-by-block launch leaves. *)
Theorem apply_pbc_any_schedule para a (schedule : list (Z * Z)) :
  schedule ≡ₚ grid_threads (grid_of (N para)) BLOCK_SIZE ->
  launch_scheduled schedule BLOCK_SIZE
    (gpu_apply_pbc (N para) (pbc_x para) (pbc_y para) (pbc_z para)) a
  = apply_pbc para a.
Proof.
  intros Hperm. unfold apply_pbc. rewrite launch_as_schedule.
  unfold launch_scheduled. apply foldl_permutation; [|exact Hperm].
  intros a0 u v. apply gpu_apply_pbc_comm.
Qed.

End Schedules.

(** ** The state a rebuild leaves *)

Section AfterRebuild.
Implicit Types (para : Parameters real) (w : World real) (a : Atom real).

(** The atoms a returning, rebuilding call of the driver ends with. *)
Lemma driver_rebuilt_atom para is_first w w' :
  is_first = 1
  \/ check_atom_distance_d2 (r_mul r_half r_half) (N para) (w_atom w) <> 0 ->
  find_neighbor_driver para is_first w = Returned tt w' ->
  let m := choose_method para (box_length (w_atom w)) in
  let a1 := set_list (w_atom w) (run_builder m para (w_atom w)) in
  w_atom w' = update_xyz0 para (if is_first =? 1 then a1 else apply_pbc para a1).
Proof.
  intros Hre Hret. cbv zeta.
  destruct (driver_rebuilds para is_first w Hre) as (steady & w0 & Hd & Ha & _ & Hst).
  rewrite Hd in Hret. apply rebuild_returned in Hret as [_ ->].
  cbn [w_atom with_atom]. rewrite Ha.
  destruct (Z.eqb_spec is_first 1) as [H1|H1].
  - rewrite (proj2 Hst H1). reflexivity.
  - destruct steady; [reflexivity|]. elim H1. apply Hst. reflexivity.
Qed.

Lemma driver_rebuilt_wf para is_first w w' :
  wf_atom (N para) (w_atom w) ->
  is_first = 1
  \/ check_atom_distance_d2 (r_mul r_half r_half) (N para) (w_atom w) <> 0 ->
  find_neighbor_driver para is_first w = Returned tt w' ->
  wf_atom (N para) (w_atom w')
  /\ (forall d, coord0 d (w_atom w') = coord d (w_atom w')).
Proof.
  intros Hwf Hre Hret.
  rewrite (driver_rebuilt_atom para is_first w w' Hre Hret).
  assert (Hwf2 : wf_atom (N para)
    (if is_first =? 1
     then set_list (w_atom w)
            (run_builder (choose_method para (box_length (w_atom w))) para (w_atom w))
     else apply_pbc para
            (set_list (w_atom w)
               (run_builder (choose_method para (box_length (w_atom w))) para (w_atom w))))).
  { destruct (is_first =? 1); [|apply wf_atom_apply_pbc];
      apply wf_atom_set_list; exact Hwf. }
  rewrite update_xyz0_wf by exact Hwf2.
  destruct Hwf2 as (HN & Hc & Hc0).
  split.
  - split; [exact HN|]. split; intros d; rewrite <- (Hc d); destruct d; reflexivity.
  - intros d. destruct d; reflexivity.
Qed.

End AfterRebuild.

End NeighborCu.

(** * The periodic wrap in exact arithmetic

    The properties below depend on the order and on the additive laws of
    [real]; they are proved for the instance [Q_real], which computes
    without rounding. *)

Section ExactWrap.
Implicit Types (para : Parameters Q) (a : Atom Q) (l v : Q).

Lemma Qltb_lt l v : Qltb l v = true <-> (l < v)%Q.
Proof.
  unfold Qltb. rewrite Bool.negb_true_iff, <- Bool.not_true_iff_false, Qle_bool_iff.
  split; [apply Qnot_le_lt|apply Qlt_not_le].
Qed.

Lemma Qltb_ge l v : Qltb l v = false <-> (v <= l)%Q.
Proof.
  unfold Qltb. rewrite Bool.negb_false_iff. apply Qle_bool_iff.
Qed.

(** The three cases of the statement, with strict comparisons. *)
Lemma pull_back_cases l v :
  ((v < 0)%Q /\ pull_back l v = (v + l)%Q)
  \/ ((0 <= v)%Q /\ (l < v)%Q /\ pull_back l v = (v - l)%Q)
  \/ ((0 <= v)%Q /\ (v <= l)%Q /\ pull_back l v = v).
Proof.
  unfold pull_back, r_gtb. simpl.
  destruct (Qltb v 0) eqn:H0.
  - left. apply Qltb_lt in H0. tauto.
  - apply Qltb_ge in H0. destruct (Qltb l v) eqn:Hl.
    + right. left. apply Qltb_lt in Hl. tauto.
    + right. right. apply Qltb_ge in Hl. tauto.
Qed.

Lemma pull_back_id l v : (0 <= v <= l)%Q -> pull_back l v = v.
Proof.
  intros Hv. destruct (pull_back_cases l v) as [[H0 _]|[(_ & Hl & _)|(_ & _ & ->)]];
    [lra|lra|reflexivity].
Qed.

Lemma pull_back_range l v :
  (- l <= v <= 2 * l)%Q -> (0 <= pull_back l v <= l)%Q.
Proof.
  intros Hv. destruct (pull_back_cases l v) as [[H0 ->]|[(H0 & Hl & ->)|(H0 & Hl & ->)]];
    lra.
Qed.

Lemma pull_back_all_idem N0 pbc l (arr : list Q) :
  (forall j v, pbc = 1 -> Z.of_nat j < N0 -> arr !! j = Some v ->
     (- l <= v <= 2 * l)%Q) ->
  pull_back_all N0 pbc l (pull_back_all N0 pbc l arr) = pull_back_all N0 pbc l arr.
Proof.
  intros Hb. apply list_eq. intros j.
  rewrite !pull_back_all_lookup.
  destruct (arr !! j) as [v|] eqn:Hv; simpl; [|reflexivity]. f_equal.
  destruct (Z.ltb_spec (Z.of_nat j) N0); simpl; [|reflexivity].
  destruct (Z.eqb_spec pbc 1); [|reflexivity].
  apply pull_back_id, pull_back_range. eapply Hb; eassumption.
Qed.

(** C7, as amended: when every coordinate of a periodic axis is within one
    box length of the box ([- l <= v <= 2 l]), applying the wrap twice
    yields the positions that applying it once yields, and a coordinate
    already within [0, l] is left as it is by the wrap. *)
Theorem apply_pbc_idempotent_within_one_box para a :
  N para <= Int.max_signed ->
  (forall d j v, pbc_flag d para = 1 -> Z.of_nat j < N para ->
     coord d a !! j = Some v -> (- box_len d a <= v <= 2 * box_len d a)%Q) ->
  apply_pbc para (apply_pbc para a) = apply_pbc para a
  /\ (forall d j v, coord d a !! j = Some v -> (0 <= v <= box_len d a)%Q ->
        coord d (apply_pbc para a) !! j = Some v).
Proof.
  intros HN Hb. split.
  - rewrite (apply_pbc_spec para (apply_pbc para a)) by exact HN.
    rewrite (apply_pbc_spec para a) by exact HN.
    unfold set_xyz. cbn [NN NL x y z x0 y0 z0 box_length].
    rewrite (pull_back_all_idem _ _ _ (x a)) by (apply (Hb AxisX)).
    rewrite (pull_back_all_idem _ _ _ (y a)) by (apply (Hb AxisY)).
    rewrite (pull_back_all_idem _ _ _ (z a)) by (apply (Hb AxisZ)).
    reflexivity.
  - intros d j v Hv Hin. rewrite apply_pbc_coord by exact HN.
    rewrite pull_back_all_lookup, Hv. simpl. f_equal.
    destruct (_ && _); [|reflexivity]. apply pull_back_id. exact Hin.
Qed.

(** C9: the wrap compares strictly.  On a periodic axis a coordinate equal
    to 0 or to the box length is left unchanged; a coordinate the wrap
    changes was strictly below 0, and gained one box length, or strictly
    above the box length, and lost one; and a coordinate within one box
    length of the box ends in the closed interval [0, l], whose upper end
    is reached. *)
Theorem apply_pbc_strict_closed_interval para a d (j : nat) v :
  N para <= Int.max_signed ->
  pbc_flag d para = 1 ->
  Z.of_nat j < N para ->
  coord d a !! j = Some v ->
  (0 <= box_len d a)%Q ->
  let l := box_len d a in
  let v' := pull_back l v in
  coord d (apply_pbc para a) !! j = Some v'
  /\ ((v == 0 \/ v == l)%Q -> v' = v)
  /\ (v' <> v -> ((v < 0)%Q /\ v' = (v + l)%Q) \/ ((l < v)%Q /\ v' = (v - l)%Q))
  /\ ((- l <= v <= 2 * l)%Q -> (0 <= v' <= l)%Q)
  /\ pull_back l l = l.
Proof.
  intros HN Hflag Hj Hv Hl l v'. subst v'. fold l in Hl. split; [|split; [|split; [|split]]].
  - rewrite apply_pbc_coord by exact HN.
    rewrite pull_back_all_lookup, Hv, Hflag. simpl.
    rewrite (proj2 (Z.ltb_lt _ _)) by exact Hj. reflexivity.
  - intros [H0|Hvl]; apply pull_back_id; lra.
  - intros Hne.
    destruct (pull_back_cases l v) as [[H0 He]|[(H0 & Hlv & He)|(_ & _ & He)]];
      [left; tauto|right; tauto|contradiction].
  - apply pull_back_range.
  - apply pull_back_id. lra.
Qed.

End ExactWrap.

(** * The driver in exact arithmetic *)

Section ExactDriver.
Set Default Proof Using "Type".
Variable DEBUG : bool.
Variable find_neighbor_ON2 : Parameters Q -> Atom Q -> NeighborList.
Variable find_neighbor_ON1 : Parameters Q -> Atom Q -> Z -> Z -> Z -> NeighborList.
Implicit Types (para : Parameters Q) (w : World Q) (a : Atom Q).

(** A particle that sits on its reference position did not move. *)
Lemma not_moved_on_reference (xs ys zs : list Q) (n : Z) :
  moved (r_mul r_half r_half) xs ys zs xs ys zs n = false.
Proof.
  unfold moved, r_gtb. cbv zeta. simpl. apply Qltb_ge.
  assert (E : ((xs.[n] - xs.[n]) * (xs.[n] - xs.[n])
               + (ys.[n] - ys.[n]) * (ys.[n] - ys.[n])
               + (zs.[n] - zs.[n]) * (zs.[n] - zs.[n]) == 0)%Q) by ring.
  rewrite E. discriminate.
Qed.

Lemma check_atom_distance_on_reference N0 a :
  N0 <= Int.max_signed ->
  (forall d, coord0 d a = coord d a) ->
  check_atom_distance_d2 (r_mul r_half r_half) N0 a = 0.
Proof.
  intros HN Href. rewrite check_atom_distance_d2_count by exact HN.
  destruct (moved_particles (r_mul r_half r_half) N0 a) as [|n l] eqn:Hl; [reflexivity|].
  assert (Hin : n ∈ moved_particles (r_mul r_half r_half) N0 a) by (rewrite Hl; left).
  apply moved_particles_elem in Hin as [_ Hm].
  pose proof (Href AxisX) as Hx. pose proof (Href AxisY) as Hy.
  pose proof (Href AxisZ) as Hz. simpl in Hx, Hy, Hz.
  rewrite Hx, Hy, Hz, not_moved_on_reference in Hm. discriminate Hm.
Qed.

(** X15: after a call of the driver that rebuilt the list and returned,
    the next steady-state call, made before any particle moved, returns at
    once: it enters the displacement check only and changes nothing. *)
Theorem rebuild_then_steady_call_returns_at_once para is_first is_next w w1 :
  wf_atom (N para) (w_atom w) ->
  is_first = 1
  \/ check_atom_distance_d2 (r_mul r_half r_half) (N para) (w_atom w) <> 0 ->
  find_neighbor_driver DEBUG find_neighbor_ON2 find_neighbor_ON1 para is_first w
  = Returned tt w1 ->
  is_next <> 1 ->
  find_neighbor_driver DEBUG find_neighbor_ON2 find_neighbor_ON1 para is_next w1
  = Returned tt (log w1 [CallCheckDistance]).
Proof.
  intros Hwf Hre Hret Hnext.
  destruct (driver_rebuilt_wf DEBUG find_neighbor_ON2 find_neighbor_ON1
              para is_first w w1 Hwf Hre Hret) as [Hwf1 Href].
  rewrite driver_unfold, (proj2 (Z.eqb_neq _ _)) by exact Hnext.
  rewrite check_atom_distance_on_reference;
    [reflexivity|destruct Hwf1 as [[_ HN] _]; exact HN|exact Href].
Qed.

(** X16: when a steady-state call rebuilds and returns, every coordinate
    of a periodic axis that was within one box length of the box
    ([- l <= v <= 2 l]) lies in [0, l] afterwards. *)
Theorem steady_rebuild_brings_particles_into_box para is_first w w' d (j : nat) v' :
  wf_atom (N para) (w_atom w) ->
  is_first <> 1 ->
  find_neighbor_driver DEBUG find_neighbor_ON2 find_neighbor_ON1 para is_first w
  = Returned tt w' ->
  check_atom_distance_d2 (r_mul r_half r_half) (N para) (w_atom w) <> 0 ->
  pbc_flag d para = 1 ->
  (forall v, coord d (w_atom w) !! j = Some v ->
     (- box_len d (w_atom w) <= v <= 2 * box_len d (w_atom w))%Q) ->
  coord d (w_atom w') !! j = Some v' ->
  (0 <= v' <= box_len d (w_atom w))%Q
  /\ coord0 d (w_atom w') !! j = Some v'.
Proof.
  intros Hwf Hfirst Hret Hre Hflag Hnear Hv'.
  destruct (driver_rebuilt_wf DEBUG find_neighbor_ON2 find_neighbor_ON1
              para is_first w w' Hwf (or_intror Hre) Hret) as [_ Href].
  split; [|rewrite Href; exact Hv'].
  rewrite (driver_rebuilt_atom DEBUG find_neighbor_ON2 find_neighbor_ON1
             para is_first w w' (or_intror Hre) Hret) in Hv'.
  rewrite (proj2 (Z.eqb_neq _ _)) in Hv' by exact Hfirst.
  rewrite (proj2 (proj2 (proj2 (update_xyz0_keeps para _)))) in Hv'.
  destruct Hwf as ([_ HN] & Hlen & _).
  rewrite apply_pbc_coord in Hv' by exact HN.
  rewrite pull_back_all_lookup in Hv'.
  assert (Hc : coord d (set_list (w_atom w)
                 (run_builder find_neighbor_ON2 find_neighbor_ON1
                    (choose_method DEBUG para (box_length (w_atom w))) para (w_atom w)))
               = coord d (w_atom w)) by (destruct d; reflexivity).
  assert (Hb : box_len d (set_list (w_atom w)
                 (run_builder find_neighbor_ON2 find_neighbor_ON1
                    (choose_method DEBUG para (box_length (w_atom w))) para (w_atom w)))
               = box_len d (w_atom w)) by (destruct d; reflexivity).
  rewrite Hc, Hb in Hv'.
  destruct (coord d (w_atom w) !! j) as [v|] eqn:Hv; [|discriminate Hv'].
  simpl in Hv'. injection Hv' as <-. specialize (Hnear v eq_refl).
  apply lookup_lt_Some in Hv. rewrite (Hlen d) in Hv.
  rewrite (proj2 (Z.ltb_lt _ _)) by lia. rewrite Hflag. simpl.
  apply pull_back_range. exact Hnear.
Qed.

Lemma filter_length_mono {A} (P1 P2 : A -> Prop)
    `{!forall v, Decision (P1 v)} `{!forall v, Decision (P2 v)} (l : list A) :
  (forall v, P1 v -> P2 v) ->
  (length (filter P1 l) <= length (filter P2 l))%nat.
Proof.
  intros Himp. induction l as [|v l IH]; [reflexivity|].
  rewrite !filter_cons.
  destruct (decide (P1 v)) as [H1|H1], (decide (P2 v)) as [H2|H2]; simpl; try lia.
  elim H2. apply Himp. exact H1.
Qed.

(** X18: raising the threshold never makes the displacement check report
    more particles: for [d2 <= d2'] the count for [d2'] is at most the
    count for [d2]. *)
Theorem check_atom_distance_antitone_in_threshold N0 a (d2 d2' : Q) :
  N0 <= Int.max_signed ->
  (d2 <= d2')%Q ->
  check_atom_distance_d2 d2' N0 a <= check_atom_distance_d2 d2 N0 a.
Proof.
  intros HN Hle. rewrite !check_atom_distance_d2_count by exact HN.
  apply inj_le. unfold moved_particles. apply filter_length_mono.
  intros n. rewrite !Is_true_true. unfold moved, r_gtb. cbv zeta. simpl.
  rewrite !Qltb_lt. intros Hlt. eapply Qle_lt_trans; eassumption.
Qed.

End ExactDriver.

(** * The properties on the sample configurations *)

Section Samples.

Ltac by_computation := vm_compute; first [reflexivity | discriminate].

Lemma sample_atom_wf : wf_atom (N sample_para) sample_atom.
Proof.
  split; [split; by_computation|]. split; intros []; reflexivity.
Qed.

Lemma check_atom_distance_nonzero_iff_witness :
  N sample_para <= Int.max_signed
  /\ check_atom_distance_d2 (1 # 4)%Q (N sample_para) sample_atom <> 0.
Proof.
  split; [by_computation|].
  apply (proj1 (check_atom_distance_nonzero_iff sample_para sample_world (1 # 4)%Q
                  ltac:(by_computation))).
  exists 2. split; [split|]; by_computation.
Defined.

Lemma check_atom_distance_counts_moved_witness :
  1 <= N sample_para <= Int.max_signed
  /\ check_atom_distance_d2 (1 # 4)%Q (N sample_para) sample_atom = 1.
Proof.
  split; [split; by_computation|].
  apply (eq_trans
    (proj1 (check_atom_distance_counts_moved sample_para sample_world (1 # 4)%Q
              ltac:(split; by_computation)))).
  reflexivity.
Defined.

(** With [MN = 1] every particle of [still_atom] is reported. *)
Example check_bound_reports_all :
  check_bound tight_para still_world
  = Exited 1
      {| w_atom := still_atom;
         w_stdout := [("Error: NN[0] = 2 > 1" ++ newline)%string;
                      ("Error: NN[1] = 2 > 1" ++ newline)%string;
                      ("Error: NN[2] = 2 > 1" ++ newline)%string];
         w_calls := [CallCheckBound] |}.
Proof. rewrite check_bound_spec. reflexivity. Qed.

Lemma steady_state_no_rebuild_witness :
  0 <> 1
  /\ check_atom_distance_d2 (r_mul r_half r_half) (N sample_para) still_atom = 0
  /\ find_neighbor_driver false sample_ON2 sample_ON1 sample_para 0 still_world
     = Returned tt
         {| w_atom := still_atom; w_stdout := []; w_calls := [CallCheckDistance] |}.
Proof.
  split; [discriminate|]. split; [by_computation|].
  apply (proj1 (steady_state_no_rebuild false sample_ON2 sample_ON1
                  sample_para 0 still_world ltac:(discriminate) ltac:(by_computation))).
Defined.

Lemma bootstrap_rebuilds_witness :
  wf_atom (N sample_para) sample_atom
  /\ find_neighbor_driver false sample_ON2 sample_ON1 sample_para 1 sample_world
     = Returned tt
         {| w_atom := bootstrapped_atom; w_stdout := [];
            w_calls := [CallON2; CallCheckBound; CallUpdateXyz0] |}.
Proof.
  split; [exact sample_atom_wf|].
  apply (eq_trans
    (proj1 (bootstrap_rebuilds false sample_ON2 sample_ON1
              sample_para sample_world sample_atom_wf))).
  reflexivity.
Defined.

Lemma rebuild_order_witness :
  wf_atom (N sample_para) sample_atom
  /\ find_neighbor_driver false sample_ON2 sample_ON1 sample_para 0 sample_world
     = Returned tt
         {| w_atom := rebuilt_atom; w_stdout := [];
            w_calls := [CallCheckDistance; CallON2; CallCheckBound;
                        CallApplyPbc; CallUpdateXyz0] |}.
Proof.
  split; [exact sample_atom_wf|].
  apply (eq_trans
    (rebuild_order false sample_ON2 sample_ON1 sample_para 0 sample_world
       sample_atom_wf)).
  by_computation.
Defined.

Lemma apply_pbc_frame_witness :
  pbc_flag AxisZ sample_para <> 1
  /\ coord AxisZ (apply_pbc sample_para (w_atom sample_world)) = [0; 0; 9]%Q
  /\ NN (apply_pbc cubic_para (w_atom sample_world)) = NN (w_atom sample_world)
  /\ box_length (apply_pbc cubic_para (w_atom sample_world))
     = box_length (w_atom sample_world).
Proof.
  split; [discriminate|]. split.
  - exact (proj1 (apply_pbc_frame sample_para sample_world) AxisZ
             ltac:(discriminate)).
  - pose proof (apply_pbc_frame cubic_para sample_world) as Hframe.
    cbv zeta in Hframe. destruct Hframe as (_ & _ & HNN & _ & Hbox & _).
    split; [exact HNN|exact Hbox].
Defined.

Lemma choose_method_fallback_witness :
  choose_method false sample_para small_box = UseON2
  /\ choose_method false cubic_para small_box = UseON1 4 4 4.
Proof.
  split.
  - apply (proj1 (choose_method_fallback false sample_para small_box)).
    right. by_computation.
  - pose proof (proj2 (choose_method_fallback false cubic_para small_box)) as Hcell.
    cbv zeta in Hcell.
    apply (eq_trans (Hcell eq_refl ltac:(by_computation) ltac:(split; by_computation))).
    by_computation.
Defined.

(** The claim of C2 fails where the product of the counts leaves the range
    of an [int]: 2048^3 cells on three periodic axes of 2048 cells each, yet
    the O(N^2) builder; it fails in a DEBUG build; and it fails where the
    floor itself leaves the range of an [int]: 2^32 + 5 cells along x, 4
    along y and z, yet the O(N^2) builder, the count stored being INT_MIN. *)
Lemma choose_method_overflow :
  axis_too_few 1 2048%Q 1%Q = false
  /\ axis_count 1 2048%Q 1%Q = 2048
  /\ NUM_OF_CELLS <= 2048 * 2048 * 2048
  /\ choose_method false cubic_para huge_box <> UseON1 2048 2048 2048
  /\ choose_method true cubic_para small_box <> UseON1 4 4 4
  /\ r_floor (r_div 4294967301%Q (rc (neighbor cubic_para))) = Some 4294967301
  /\ cell_count 4294967301%Q (rc (neighbor cubic_para)) = Int.min_signed
  /\ choose_method false cubic_para wide_box = UseON2.
Proof. repeat split; by_computation. Qed.

Lemma apply_pbc_idempotent_within_one_box_witness :
  N sample_para <= Int.max_signed
  /\ apply_pbc sample_para (apply_pbc sample_para sample_atom)
     = apply_pbc sample_para sample_atom.
Proof.
  split; [by_computation|].
  assert (Hnear : forall d (j : nat) v,
            pbc_flag d sample_para = 1 -> Z.of_nat j < N sample_para ->
            coord d sample_atom !! j = Some v ->
            (- box_len d sample_atom <= v <= 2 * box_len d sample_atom)%Q).
  { intros d j v Hflag Hj Hv.
    destruct d; [| |discriminate Hflag];
      (destruct j as [|[|[|j]]]; [| | |discriminate Hv]);
      injection Hv as <-; split; by_computation. }
  exact (proj1 (apply_pbc_idempotent_within_one_box sample_para sample_atom
                  ltac:(by_computation) Hnear)).
Defined.

(** The claim of C7 fails two box lengths away from the box: the first
    wrap moves -2 to -1, the second moves -1 to 0. *)
Lemma apply_pbc_not_idempotent :
  x (apply_pbc far_para far_atom) = [-1]%Q
  /\ x (apply_pbc far_para (apply_pbc far_para far_atom)) = [0]%Q
  /\ apply_pbc far_para (apply_pbc far_para far_atom) <> apply_pbc far_para far_atom.
Proof. repeat split; by_computation. Qed.

Lemma apply_pbc_strict_closed_interval_witness :
  N sample_para <= Int.max_signed
  /\ pbc_flag AxisX sample_para = 1
  /\ (0 <= box_len AxisX sample_atom)%Q
  /\ coord AxisX (apply_pbc sample_para sample_atom) !! 2%nat = Some 1%Q.
Proof.
  split; [by_computation|]. split; [reflexivity|]. split; [by_computation|].
  apply (eq_trans
    (proj1 (apply_pbc_strict_closed_interval sample_para sample_atom AxisX 2 5%Q
              ltac:(by_computation) ltac:(reflexivity) ltac:(by_computation)
              ltac:(reflexivity) ltac:(by_computation)))).
  reflexivity.
Defined.

(** In binary64 the same two wraps give the same two positions. *)
Example apply_pbc_f64_two_boxes_away :
  x (apply_pbc far_para_f64 far_atom_f64) = [-1]%float
  /\ x (apply_pbc far_para_f64 (apply_pbc far_para_f64 far_atom_f64)) = [0]%float.
Proof. split; by_computation. Qed.

(** In binary64 the sum of a coordinate just below 0 and the box length
    rounds to the box length: the wrap reaches the upper end of [0, l]. *)
Example pull_back_f64_reaches_box_length :
  pull_back 1%float (-0x1p-100)%float = 1%float.
Proof. by_computation. Qed.

(** ** The further properties on the sample configurations *)

Lemma warp_reduce_sums_64_lanes_witness :
  (64 <= length ones_64)%nat /\ warp_reduce ones_64 !!! 0%nat = 64.
Proof.
  assert (Hlen : (64 <= length ones_64)%nat) by (vm_compute; lia).
  split; [exact Hlen|].
  apply (eq_trans (proj1 (warp_reduce_sums_64_lanes ones_64 Hlen))).
  by_computation.
Defined.

Lemma block_reduce_any_thread_order_witness :
  length ones_1024 = 1024%nat
  /\ reverse (seq 0 1024) ≡ₚ seq 0 1024
  /\ (warp_reduce
        (barrier_phase 64 64 (seq 0 1024)
           (barrier_phase 128 128 (reverse (seq 0 1024))
              (barrier_phase 256 256 (seq 0 1024)
                 (barrier_phase 512 512 (reverse (seq 0 1024)) ones_1024))))).[0]
     = block_reduce ones_1024.
Proof.
  assert (Hlen : length ones_1024 = 1024%nat) by reflexivity.
  assert (Hrev : reverse (seq 0 1024) ≡ₚ seq 0 1024) by apply reverse_Permutation.
  split; [exact Hlen|]. split; [exact Hrev|].
  exact (block_reduce_any_thread_order ones_1024
           (reverse (seq 0 1024)) (seq 0 1024) (reverse (seq 0 1024)) (seq 0 1024)
           Hlen Hrev (reflexivity _) Hrev (reflexivity _)).
Defined.

Lemma check_atom_distance_1_counts_its_block_witness :
  0 <= 0 /\ 0 * 1024 + 1023 <= Int.max_signed
  /\ check_atom_distance_1 3 (1 # 4)%Q (x0 sample_atom) (y0 sample_atom) (z0 sample_atom)
       (x sample_atom) (y sample_atom) (z sample_atom) 0 1024 = 1.
Proof.
  split; [by_computation|]. split; [by_computation|].
  apply (eq_trans
    (proj1 (check_atom_distance_1_counts_its_block 3 (1 # 4)%Q
              (x0 sample_atom) (y0 sample_atom) (z0 sample_atom)
              (x sample_atom) (y sample_atom) (z sample_atom) 0
              ltac:(by_computation) ltac:(by_computation)))).
  by_computation.
Defined.

Lemma check_atom_distance_2_sums_every_patch_witness :
  0 <= 1030 <= Int.max_signed
  /\ length ones_1030 = Z.to_nat 1030
  /\ check_atom_distance_2 1030 ones_1030 1024 = 1030.
Proof.
  assert (HM : 0 <= 1030 <= Int.max_signed) by (split; by_computation).
  assert (Hlen : length ones_1030 = Z.to_nat 1030) by by_computation.
  split; [exact HM|]. split; [exact Hlen|].
  apply (eq_trans
    (proj1 (check_atom_distance_2_sums_every_patch 1030 ones_1030 HM Hlen))).
  by_computation.
Defined.

Lemma check_atom_distance_between_0_and_N_witness :
  N sample_para <= Int.max_signed
  /\ 0 <= check_atom_distance_d2 (1 # 4)%Q (N sample_para) sample_atom
       <= Z.max 0 (N sample_para).
Proof.
  split; [by_computation|].
  exact (proj1 (check_atom_distance_between_0_and_N (1 # 4)%Q (N sample_para)
                  sample_atom ltac:(by_computation))).
Defined.

Lemma update_xyz0_copies_first_N_witness :
  N partial_para <= Int.max_signed
  /\ coord0 AxisX (update_xyz0 partial_para sample_atom) = [0; 1; 4]%Q.
Proof.
  assert (HN : N partial_para <= Int.max_signed) by by_computation.
  split; [exact HN|].
  pose proof (proj1 (update_xyz0_copies_first_N partial_para sample_atom HN) AxisX)
    as Hlook.
  apply list_eq. intros j. rewrite Hlook.
  destruct j as [|[|[|j]]]; reflexivity.
Defined.

Lemma apply_pbc_moves_by_one_box_length_witness :
  N partial_para <= Int.max_signed
  /\ coord AxisX sample_atom !! 2%nat = Some 5%Q
  /\ coord AxisX (apply_pbc partial_para sample_atom) !! 2%nat = Some 5%Q.
Proof.
  assert (HN : N partial_para <= Int.max_signed) by by_computation.
  split; [exact HN|]. split; [reflexivity|].
  destruct (apply_pbc_moves_by_one_box_length partial_para sample_atom AxisX 2 5%Q
              HN eq_refl) as (v' & Hlook & _ & Hbeyond & _).
  rewrite Hlook. f_equal. apply Hbeyond. by_computation.
Defined.

Lemma choose_method_ON1_is_sound_witness :
  choose_method false cubic_para small_box = UseON1 4 4 4
  /\ NUM_OF_CELLS <= Int.mul (Int.mul 4 4) 4.
Proof.
  assert (Hm : choose_method false cubic_para small_box = UseON1 4 4 4)
    by by_computation.
  split; [exact Hm|].
  apply (choose_method_ON1_is_sound false cubic_para small_box 4 4 4 Hm).
Defined.

Lemma driver_returns_within_capacity_witness :
  find_neighbor_driver false sample_ON2 sample_ON1 sample_para 1 sample_world
  = Returned tt bootstrapped_world
  /\ (forall n, 0 <= n < N sample_para ->
        (NN (w_atom bootstrapped_world)).[n] <= MN (neighbor sample_para)).
Proof.
  assert (Hret : find_neighbor_driver false sample_ON2 sample_ON1 sample_para 1
                   sample_world = Returned tt bootstrapped_world) by by_computation.
  split; [exact Hret|].
  exact (driver_returns_within_capacity false sample_ON2 sample_ON1 sample_para 1
           sample_world bootstrapped_world (or_introl eq_refl) Hret).
Defined.

Lemma driver_exit_is_capacity_overflow_witness :
  find_neighbor_driver false sample_ON2 sample_ON1 tight_para 1 sample_world
  = Exited 1 overflowed_world
  /\ box_length (w_atom overflowed_world) = box_length (w_atom sample_world).
Proof.
  assert (Hex : find_neighbor_driver false sample_ON2 sample_ON1 tight_para 1
                  sample_world = Exited 1 overflowed_world) by by_computation.
  split; [exact Hex|].
  apply (driver_exit_is_capacity_overflow false sample_ON2 sample_ON1 tight_para 1
           sample_world 1 overflowed_world Hex).
Defined.

Lemma driver_frame_witness :
  pbc_flag AxisZ sample_para <> 1
  /\ coord AxisZ
       (w_atom (outcome_world
          (find_neighbor_driver false sample_ON2 sample_ON1 sample_para 0 sample_world)))
     = coord AxisZ (w_atom sample_world).
Proof.
  assert (Hoff : pbc_flag AxisZ sample_para <> 1) by discriminate.
  split; [exact Hoff|].
  pose proof (driver_frame false sample_ON2 sample_ON1 sample_para 0 sample_world)
    as Hframe.
  cbv zeta in Hframe. destruct Hframe as (_ & _ & Hcoord & _).
  exact (Hcoord AxisZ (or_introl Hoff)).
Defined.

Lemma empty_system_is_left_alone_witness :
  N empty_para = 0 /\ 0 <> 1
  /\ find_neighbor_driver false sample_ON2 sample_ON1 empty_para 0 empty_world
     = Returned tt (log empty_world [CallCheckDistance]).
Proof.
  split; [by_computation|]. split; [discriminate|].
  exact (proj1 (empty_system_is_left_alone false sample_ON2 sample_ON1 empty_para 0
                  empty_world ltac:(by_computation) ltac:(discriminate))).
Defined.

Lemma update_xyz0_any_schedule_witness :
  reverse (grid_threads (grid_of (N sample_para)) BLOCK_SIZE)
    ≡ₚ grid_threads (grid_of (N sample_para)) BLOCK_SIZE
  /\ launch_scheduled (reverse (grid_threads (grid_of (N sample_para)) BLOCK_SIZE))
       BLOCK_SIZE (gpu_update_xyz0 (N sample_para)) sample_atom
     = update_xyz0 sample_para sample_atom.
Proof.
  assert (Hrev : reverse (grid_threads (grid_of (N sample_para)) BLOCK_SIZE)
                   ≡ₚ grid_threads (grid_of (N sample_para)) BLOCK_SIZE)
    by apply reverse_Permutation.
  split; [exact Hrev|].
  exact (update_xyz0_any_schedule sample_para sample_atom _ Hrev).
Defined.

Lemma apply_pbc_any_schedule_witness :
  reverse (grid_threads (grid_of (N sample_para)) BLOCK_SIZE)
    ≡ₚ grid_threads (grid_of (N sample_para)) BLOCK_SIZE
  /\ launch_scheduled (reverse (grid_threads (grid_of (N sample_para)) BLOCK_SIZE))
       BLOCK_SIZE
       (gpu_apply_pbc (N sample_para) (pbc_x sample_para) (pbc_y sample_para)
          (pbc_z sample_para)) sample_atom
     = apply_pbc sample_para sample_atom.
Proof.
  assert (Hrev : reverse (grid_threads (grid_of (N sample_para)) BLOCK_SIZE)
                   ≡ₚ grid_threads (grid_of (N sample_para)) BLOCK_SIZE)
    by apply reverse_Permutation.
  split; [exact Hrev|].
  exact (apply_pbc_any_schedule sample_para sample_atom _ Hrev).
Defined.

Lemma rebuild_then_steady_call_returns_at_once_witness :
  wf_atom (N sample_para) (w_atom sample_world)
  /\ find_neighbor_driver false sample_ON2 sample_ON1 sample_para 1 sample_world
     = Returned tt bootstrapped_world
  /\ 0 <> 1
  /\ find_neighbor_driver false sample_ON2 sample_ON1 sample_para 0 bootstrapped_world
     = Returned tt (log bootstrapped_world [CallCheckDistance]).
Proof.
  assert (Hret : find_neighbor_driver false sample_ON2 sample_ON1 sample_para 1
                   sample_world = Returned tt bootstrapped_world) by by_computation.
  split; [exact sample_atom_wf|]. split; [exact Hret|]. split; [discriminate|].
  exact (rebuild_then_steady_call_returns_at_once false sample_ON2 sample_ON1
           sample_para 1 0 sample_world bootstrapped_world
           sample_atom_wf (or_introl eq_refl) Hret ltac:(discriminate)).
Defined.

Lemma steady_rebuild_brings_particles_into_box_witness :
  wf_atom (N sample_para) (w_atom sample_world)
  /\ find_neighbor_driver false sample_ON2 sample_ON1 sample_para 0 sample_world
     = Returned tt rebuilt_world
  /\ coord AxisX (w_atom rebuilt_world) !! 2%nat = Some 1%Q
  /\ (0 <= 1 <= box_len AxisX (w_atom sample_world))%Q.
Proof.
  assert (Hret : find_neighbor_driver false sample_ON2 sample_ON1 sample_para 0
                   sample_world = Returned tt rebuilt_world) by by_computation.
  assert (Hnear : forall v, coord AxisX (w_atom sample_world) !! 2%nat = Some v ->
            (- box_len AxisX (w_atom sample_world) <= v
             <= 2 * box_len AxisX (w_atom sample_world))%Q).
  { intros v Hv. injection Hv as <-. split; by_computation. }
  split; [exact sample_atom_wf|]. split; [exact Hret|]. split; [reflexivity|].
  exact (proj1 (steady_rebuild_brings_particles_into_box false sample_ON2 sample_ON1
                  sample_para 0 sample_world rebuilt_world AxisX 2 1%Q
                  sample_atom_wf ltac:(discriminate) Hret ltac:(by_computation)
                  eq_refl Hnear eq_refl)).
Defined.

Lemma launch_grids_cover_every_particle_witness :
  1 <= 1000 <= Int.max_signed
  /\ 1000 <= grid_of 1000 * BLOCK_SIZE < 1000 + BLOCK_SIZE.
Proof.
  assert (HN : 1 <= 1000 <= Int.max_signed) by (split; by_computation).
  split; [exact HN|].
  exact (proj1 (proj1 (launch_grids_cover_every_particle 1000 HN))).
Defined.

Lemma check_atom_distance_antitone_in_threshold_witness :
  N sample_para <= Int.max_signed
  /\ ((1 # 4) <= 100)%Q
  /\ check_atom_distance_d2 100%Q (N sample_para) sample_atom
     <= check_atom_distance_d2 (1 # 4)%Q (N sample_para) sample_atom.
Proof.
  assert (HN : N sample_para <= Int.max_signed) by by_computation.
  assert (Hle : ((1 # 4) <= 100)%Q) by by_computation.
  split; [exact HN|]. split; [exact Hle|].
  exact (check_atom_distance_antitone_in_threshold (N sample_para) sample_atom
           (1 # 4)%Q 100%Q HN Hle).
Defined.

End Samples.
